(** * brave_captcha_gen: synthetic captcha dataset generator

    A shallow embedding of [brave_captcha_gen.py]: the static-noise image
    synthesiser [generate_static_image], the per-sample job
    [generate_single_sample] and the body that
    [generate_yolo_dataset_multiprocessed] runs for each split, with its
    pool of jobs and its result-collection loop, followed by the
    properties that the design document states about them and by further
    properties read off the code.  The preview block under [__main__] is
    left out: it draws with [ImageDraw], truncates products of floats
    and opens the file with calls of the host platform.

    Conventions of the embedding.
    - Python integers are [Z]; [//] is [Z.div] and [%] is [Z.modulo]
      (both round towards minus infinity, as in Python).
    - The global generator of the [random] module is a stream of raw
      words and a cursor; [randint a b] consumes one word.  Every value
      of [[a, b]] is produced by some word, so a statement quantified
      over all streams covers every possible draw.
    - A Python float is the rational number it denotes.  The true
      division [/] of two integers gives the double nearest to the
      quotient ([binary64], ties to even), and [.6f] prints the decimal
      nearest to that double.  Quotients beyond the range of the
      doubles and the sign of a zero are not modelled.
    - The file system is a finite map from paths to file contents, with
      an oracle [fs_fault] that tells which writes fail, how, and with
      which message: either the file cannot be opened and nothing
      changes, or it is opened, hence created or emptied, and the write
      breaks off.
    - Exceptions are values of [exn]; a computation returns its result
      or the exception it raised together with the state it left. *)

From Stdlib Require Import Ascii String ZArith QArith Qabs Reals Lia Lra.
From stdpp Require Import base tactics option list strings pretty gmap numbers.

Local Open Scope string_scope.
Local Open Scope Z_scope.

(** ** Exceptions and the state monad of the program *)

Inductive exn : Type :=
  | ValueError (msg : string)
  | ZeroDivisionError (msg : string)
  | OSError (msg : string).

(** [str(exc)], as printed by the collector. *)
Definition exn_message (e : exn) : string :=
  match e with
  | ValueError m | ZeroDivisionError m | OSError m => m
  end.

Inductive result (A : Type) : Type :=
  | Ok (a : A)
  | Raise (e : exn).
Arguments Ok {A} a.
Arguments Raise {A} e.

(** The generator of module [random]: raw words and a cursor. *)
Record rng : Type := MkRng { rng_words : nat → Z; rng_pos : nat }.

Definition rng_peek (g : rng) (k : nat) : Z := rng_words g (rng_pos g + k)%nat.
Definition rng_skip (k : nat) (g : rng) : rng :=
  MkRng (rng_words g) (rng_pos g + k)%nat.

(** A grayscale ('L') image: its size and the pixel access object.
    Pixels never assigned keep the fill value 0 of [Image.new]. *)
Record image : Type := MkImage {
  im_width : Z;
  im_height : Z;
  im_px : gmap (Z * Z) Z
}.

Definition getpixel (img : image) (x y : Z) : Z := default 0 (im_px img !! (x, y)).

(** What a path holds: a PNG image, a text, or the remains of a write
    that broke off. *)
Inductive file : Type :=
  | PngFile (img : image)
  | TextFile (content : string)
  | Truncated.

(** How a write fails.  [Refused]: the file cannot be opened (no
    permission, no such directory), the path stays as it was.
    [Broken]: the file has been opened for writing, hence created or
    emptied, and the write or the close fails (no space left on the
    device); [remains] is what the file holds then. *)
Inductive fault : Type :=
  | Refused (msg : string)
  | Broken (msg : string) (remains : file).

Definition fault_message (f : fault) : string :=
  match f with
  | Refused m | Broken m _ => m
  end.

Record filesystem : Type := MkFs {
  fs_files : gmap string file;
  fs_dirs : gset string;
  fs_fault : string → file → option fault
}.

Record world : Type := MkWorld { w_rng : rng; w_fs : filesystem }.

Definition M (A : Type) : Type := world → result A * world.

Definition ret {A} (a : A) : M A := λ st, (Ok a, st).
Definition raise {A} (e : exn) : M A := λ st, (Raise e, st).
Definition bind {A B} (m : M A) (k : A → M B) : M B :=
  λ st, match m st with
        | (Ok a, st') => k a st'
        | (Raise e, st') => (Raise e, st')
        end.

#[global] Instance M_ret : MRet M := @ret.
#[global] Instance M_bind : MBind M := λ A B k m, bind m k.

(** [for a in l: acc = body(acc, a)] *)
Fixpoint for_each {A B} (l : list A) (body : B → A → M B) (acc : B) : M B :=
  match l with
  | [] => ret acc
  | a :: l' => acc' ← body acc a; for_each l' body acc'
  end.

(** [range(n)] *)
Definition range (n : Z) : list Z := seqZ 0 n.

(** ** Library calls *)

(** [random.randint(a, b)]: an integer N with a <= N <= b; an empty
    range raises [ValueError] and leaves the generator untouched.  The
    message of CPython goes on with the arguments of the call, in a
    form that changes from one version to the next; the constant part
    is kept. *)
Definition randint (a b : Z) : M Z := λ st,
  if b <? a then (Raise (ValueError "empty range for randrange()"), st)
  else (Ok (a + rng_peek (w_rng st) 0 `mod` (b - a + 1)),
        MkWorld (rng_skip 1 (w_rng st)) (w_fs st)).

(** [Image.new('L', (width, height))]: negative sizes are refused.
    Sides that do not fit a C [int] (from [2^31] on) and images beyond
    the memory of the host are not modelled. *)
Definition Image_new (width height : Z) : M image :=
  if (width <? 0) || (height <? 0)
  then raise (ValueError "Width and height must be >= 0")
  else ret (MkImage width height ∅).

(** The state in which [path] holds [content]. *)
Definition world_write (path : string) (content : file) (st : world) : world :=
  MkWorld (w_rng st)
    (MkFs (<[path := content]> (fs_files (w_fs st)))
       (fs_dirs (w_fs st)) (fs_fault (w_fs st))).

(** The state after a write at [path] broke off in a call that removes
    the file again when the call itself created it: a file that was
    there before holds [remains], a path that was free is free again. *)
Definition world_leave (path : string) (remains : file) (st : world) : world :=
  if bool_decide (is_Some (fs_files (w_fs st) !! path))
  then world_write path remains st
  else st.

(** [with open(path, 'w') as f: f.write(text)]: [open] creates or
    empties the file before anything is written, so a write that breaks
    off leaves the file behind, with what the oracle says it holds. *)
Definition write_text (path text : string) : M unit := λ st,
  match fs_fault (w_fs st) path (TextFile text) with
  | Some (Refused msg) => (Raise (OSError msg), st)
  | Some (Broken msg remains) => (Raise (OSError msg), world_write path remains st)
  | None => (Ok tt, world_write path (TextFile text) st)
  end.

(** [img.save(path)] for a PNG path: Pillow opens the file, runs the
    encoder, and removes the file again when the encoder fails on a
    file that the call created.  The encoder refuses an image with a
    side of zero. *)
Definition Image_save (img : image) (path : string) : M unit := λ st,
  match fs_fault (w_fs st) path (PngFile img) with
  | Some (Refused msg) => (Raise (OSError msg), st)
  | flt =>
      if (im_width img =? 0) || (im_height img =? 0)
      then (Raise (ValueError "cannot write empty image as PNG"),
            world_leave path Truncated st)
      else
        match flt with
        | Some (Broken msg remains) => (Raise (OSError msg), world_leave path remains st)
        | _ => (Ok tt, world_write path (PngFile img) st)
        end
  end.

(** ** Double precision *)

(** The integer nearest to [a / b] for [0 < b], ties to even. *)
Definition round_half_even (a b : Z) : Z :=
  let q := a / b in
  let r := a `mod` b in
  if 2 * r <? b then q
  else if b <? 2 * r then q + 1
  else if Z.even q then q else q + 1.

(** The exponent of the last bit of the double nearest to [a / b], for
    [0 < a] and [0 < b]: the [e] with [2^52 <= (a / b) / 2^e < 2^53],
    and [-1074] in the subnormal range below. *)
Definition binary64_exponent (a b : Z) : Z :=
  let e := Z.log2 a - Z.log2 b - 52 in
  let e :=
    if 2 ^ 52 * (b * 2 ^ Z.max 0 e) <=? a * 2 ^ Z.max 0 (- e) then e else e - 1 in
  Z.max e (-1074).

(** The double nearest to [q], ties to even: [m * 2^e] with [m] the
    integer nearest to [q / 2^e]. *)
Definition binary64 (q : Q) : Q :=
  let a := Z.abs (Qnum q) in
  let b := Zpos (Qden q) in
  if a =? 0 then 0%Q
  else
    let e := binary64_exponent a b in
    let m := round_half_even (a * 2 ^ Z.max 0 (- e)) (b * 2 ^ Z.max 0 e) in
    let v := m * 2 ^ Z.max 0 e # Z.to_pos (2 ^ Z.max 0 (- e)) in
    if Qnum q <? 0 then (- v)%Q else v.

(** [a / b] on integers: the double nearest to the quotient, or
    [ZeroDivisionError]. *)
Definition truediv (a b : Z) : M Q :=
  match b with
  | Z0 => raise (ZeroDivisionError "division by zero")
  | Zpos p => ret (binary64 (a # p))
  | Zneg p => ret (binary64 (- a # p))
  end.

(** [os.path.join(a, b)] on a POSIX host. *)
Definition os_path_join (a b : string) : string :=
  if String.prefix "/" b then b
  else if decide (a = "") then b
  else if String.eqb (String.substring (String.length a - 1) 1 a) "/" then a +:+ b
  else a +:+ "/" +:+ b.

(** ** generate_static_image *)

Definition max_background_grey : Z := 150.

(** The squared distance from [(x, y)] to the centre; the code takes
    its square root and compares it with the radius. *)
Definition dist_sq (x y cx cy : Z) : Z := (x - cx) ^ 2 + (y - cy) ^ 2.

(** [distance <= circle_radius], decided on integers: a square root is
    at most [r] exactly when [r] is not negative and the square is at
    most [r * r] (see [inside_circle_euclid]).  The code takes the
    square root in double precision.  For a radius below [2^26] and a
    sum of squares within the range of the doubles the two tests agree:
    [r * r] and [r * r + 1] are then doubles, and the square root of
    [r * r + 1] lies more than one unit in the last place above [r].
    From [2^26] on the double of a distance just beyond the radius can
    be the radius itself, and this test is no longer the code's. *)
Definition inside_circle (x y cx cy r : Z) : bool :=
  (0 <=? r) && (dist_sq x y cx cy <=? r * r).

(** [min(max(v, 0), 255)] *)
Definition clamp_byte (v : Z) : Z := Z.min (Z.max v 0) 255.

Definition pixel_value (x y cx cy r shift base : Z) : Z :=
  if inside_circle x y cx cy r then clamp_byte (base + shift) else base.

(** The body of the inner loop: one draw, one pixel assignment. *)
Definition pixel_step (y cx cy r shift : Z) (px : gmap (Z * Z) Z) (x : Z)
  : M (gmap (Z * Z) Z) :=
  base_static_value ← randint 0 max_background_grey;
  ret (<[(x, y) := pixel_value x y cx cy r shift base_static_value]> px).

Definition row_step (width cx cy r shift : Z) (px : gmap (Z * Z) Z) (y : Z)
  : M (gmap (Z * Z) Z) :=
  for_each (range width) (pixel_step y cx cy r shift) px.

Definition generate_static_image
    (width height circle_radius circle_center_x circle_center_y : Z)
    (output_filepath : string) (current_brightness_shift : Z) : M image :=
  img ← Image_new width height;
  px ← for_each (range height)
         (row_step width circle_center_x circle_center_y circle_radius
            current_brightness_shift)
         (im_px img);
  let img := MkImage (im_width img) (im_height img) px in
  Image_save img output_filepath;;
  ret img.

(** ** Formatting *)

(** [str(n)] / [f"{n}"] for an integer. *)
Definition fmt_d (n : Z) : string := pretty n.

Fixpoint zeros (n : nat) : string :=
  match n with
  | O => ""
  | S n' => String "0"%char (zeros n')
  end.

Definition zero_pad (width : nat) (s : string) : string :=
  zeros (width - String.length s) +:+ s.

(** [f"{n:05d}"]: at least five characters, the sign included, filled
    with zeros after the sign; longer numbers are printed in full. *)
Definition fmt_05d (n : Z) : string :=
  if n <? 0 then "-" +:+ zero_pad 4 (pretty (- n)) else zero_pad 5 (pretty n).

(** The [k] low decimal digits of [n], most significant first, put in
    front of [acc]. *)
Fixpoint fixed_digits (k : nat) (n : Z) (acc : string) : string :=
  match k with
  | O => acc
  | S k' => fixed_digits k' (n / 10) (String (pretty_N_char (Z.to_N (n `mod` 10))) acc)
  end.

(** [f"{v:.6f}"]: sign, integer part, a point and six decimals of the
    value rounded to the nearest millionth. *)
Definition fmt_6f (v : Q) : string :=
  let scaled := round_half_even (Z.abs (Qnum v) * 1000000) (Zpos (Qden v)) in
  (if Qnum v <? 0 then "-" else "")
  +:+ pretty (scaled / 1000000)
  +:+ "."
  +:+ fixed_digits 6 (scaled `mod` 1000000) "".

Definition newline : string := String "010"%char "".

(** The line of a YOLO label file. *)
Definition label_line (class_id : Z) (cx cy w h : Q) : string :=
  fmt_d class_id +:+ " " +:+ fmt_6f cx +:+ " " +:+ fmt_6f cy +:+ " "
  +:+ fmt_6f w +:+ " " +:+ fmt_6f h +:+ newline.

(** ** generate_single_sample *)

Definition img_filepath (images_dir : string) (sample_index : Z) : string :=
  os_path_join images_dir ("image_" +:+ fmt_05d sample_index +:+ ".png").

Definition label_filepath (labels_dir : string) (sample_index : Z) : string :=
  os_path_join labels_dir ("image_" +:+ fmt_05d sample_index +:+ ".txt").

Definition generate_single_sample
    (sample_index img_width img_height circle_rad : Z)
    (images_dir labels_dir : string) : M bool :=
  random_circle_center_x ← randint circle_rad (img_width - circle_rad);
  let circle_center_y_coord := img_height / 2 in
  d ← randint (-4) 3;
  let random_brightness_shift := 20 + d in
  generate_static_image img_width img_height circle_rad
    random_circle_center_x circle_center_y_coord
    (img_filepath images_dir sample_index) random_brightness_shift;;
  let class_id := 0 in
  normalized_center_x ← truediv random_circle_center_x img_width;
  normalized_center_y ← truediv circle_center_y_coord img_height;
  normalized_width ← truediv (2 * circle_rad) img_width;
  normalized_height ← truediv (2 * circle_rad) img_height;
  write_text (label_filepath labels_dir sample_index)
    (label_line class_id normalized_center_x normalized_center_y
       normalized_width normalized_height);;
  mret true.

(** ** The per-split body of generate_yolo_dataset_multiprocessed *)

(** A finished future: the index its job was submitted with and what
    [future.result()] returns or raises. *)
Record future : Type := MkFuture { fut_index : Z; fut_result : result bool }.

Record job_args : Type := MkJobArgs {
  ja_width : Z;
  ja_height : Z;
  ja_radius : Z;
  ja_images_dir : string;
  ja_labels_dir : string
}.

(** One job in a worker process.  The worker has its own generator
    ([job_rng i] is the state it is in when job [i] starts) and shares
    the file system. *)
Definition run_job (job_rng : Z → rng) (a : job_args) (i : Z) (fs : filesystem)
  : future * filesystem :=
  let '(r, st') :=
    generate_single_sample i (ja_width a) (ja_height a) (ja_radius a)
      (ja_images_dir a) (ja_labels_dir a) (MkWorld (job_rng i) fs) in
  (MkFuture i r, w_fs st').

(** The pool: jobs finish in the order [completion]; the futures come
    out in that order, as [as_completed] yields them.  A job writes only
    the two paths of its own index and its outcome does not depend on
    the files present, so running the jobs one after the other in
    completion order leaves the files that any interleaving leaves. *)
Fixpoint run_pool (job_rng : Z → rng) (a : job_args) (completion : list Z)
    (fs : filesystem) : list future * filesystem :=
  match completion with
  | [] => ([], fs)
  | i :: rest =>
      let '(f, fs1) := run_job job_rng a i fs in
      let '(fs', fs2) := run_pool job_rng a rest fs1 in
      (f :: fs', fs2)
  end.

(** [num_samples // 10 or 1] *)
Definition progress_step (num_samples : Z) : Z :=
  let q := num_samples / 10 in if q =? 0 then 1 else q.

Definition progress_line (count num_samples : Z) (split_name : string) : string :=
  "  Generated " +:+ fmt_d count +:+ "/" +:+ fmt_d num_samples
  +:+ " for " +:+ split_name.

Definition exception_line (e : exn) : string :=
  "Generated sample threw an exception: " +:+ exn_message e.

(** One turn of the collection loop: what is printed for the future that
    [enumerate] numbers [i]. *)
Definition collect_one (num_samples : Z) (split_name : string) (i : Z) (f : future)
  : list string :=
  match fut_result f with
  | Ok _ =>
      if (i + 1) `mod` progress_step num_samples =? 0
      then [progress_line (i + 1) num_samples split_name]
      else []
  | Raise exc => [exception_line exc]
  end.

(** [for i, future in enumerate(as_completed(futures)): ...], from
    counter [i] on. *)
Fixpoint collect (num_samples : Z) (split_name : string) (i : Z)
    (completed : list future) : list string :=
  match completed with
  | [] => []
  | f :: rest =>
      collect_one num_samples split_name i f
      ++ collect num_samples split_name (i + 1) rest
  end.

(** [os.makedirs(path, exist_ok=True)], when it succeeds.  A path that
    cannot be created (a file in the way, no permission) makes the call
    raise before any job is submitted; such a run has no split to speak
    of and is not described by [generate_split]. *)
Definition makedirs (path : string) (fs : filesystem) : filesystem :=
  MkFs (fs_files fs) ({[path]} ∪ fs_dirs fs) (fs_fault fs).

Record split_run : Type := MkSplitRun {
  sr_futures : list future;
  sr_stdout : list string;
  sr_fs : filesystem
}.

(** The body of the loop over the splits, for one split: the layout,
    the submission of [range(num_samples)], the collection.
    [completion] is the order in which the jobs finish.  The pool is
    taken to start: [max_workers] is [None] or positive (the executor
    raises ValueError otherwise, outside the [try]), and apart from that
    the number of workers has no bearing on what a split computes. *)
Definition generate_split (job_rng : Z → rng) (base_output_dir split_name : string)
    (img_width img_height circle_rad num_samples : Z)
    (completion : list Z) (fs : filesystem) : split_run :=
  let split_base_dir := os_path_join base_output_dir split_name in
  let images_dir := os_path_join split_base_dir "images" in
  let labels_dir := os_path_join split_base_dir "labels" in
  let fs := makedirs labels_dir (makedirs images_dir fs) in
  let out1 :=
    ["Created directories for '" +:+ split_name +:+ "': " +:+ images_dir
       +:+ " and " +:+ labels_dir;
     "Generating " +:+ fmt_d num_samples +:+ " samples for '" +:+ split_name
       +:+ "' split..."] in
  let a := MkJobArgs img_width img_height circle_rad images_dir labels_dir in
  let '(completed, fs') := run_pool job_rng a completion fs in
  MkSplitRun completed (out1 ++ collect num_samples split_name 0 completed) fs'.

(** The completion orders the pool can produce for [num_samples] jobs:
    every submitted index finishes exactly once. *)
Definition valid_completion (num_samples : Z) (completion : list Z) : Prop :=
  completion ≡ₚ range num_samples.

(** ** Specification vocabulary *)

(** The state after [k] more words of the generator have been read. *)
Definition world_skip (k : nat) (st : world) : world :=
  MkWorld (rng_skip k (w_rng st)) (w_fs st).

(** The value [randint a b] returns when it reads the [k]-th word ahead. *)
Definition draw (a b : Z) (g : rng) (k : nat) : Z :=
  a + rng_peek g k `mod` (b - a + 1).

(** The centre and the shift that [generate_single_sample] draws when it
    starts with generator [g]: the first and the second draw. *)
Definition drawn_center_x (img_width circle_rad : Z) (g : rng) : Z :=
  draw circle_rad (img_width - circle_rad) g 0.

Definition drawn_shift (g : rng) : Z := 20 + draw (-4) 3 g 1.

(** [img] is the picture that the two loops of [generate_static_image]
    paint when they start with generator [g]: pixel [(x, y)] is painted
    from draw number [y * w + x]. *)
Definition static_spec (w h r cx cy shift : Z) (g : rng) (img : image) : Prop :=
  im_width img = w ∧ im_height img = h ∧
  ∀ x y, 0 ≤ x < w → 0 ≤ y < h →
    im_px img !! (x, y)
    = Some (pixel_value x y cx cy r shift
              (draw 0 max_background_grey g (Z.to_nat (y * w + x)))).

(** The label line of a sample with centre abscissa [cx]: the four
    quotients, each rounded to a double. *)
Definition sample_label (w h r cx : Z) : string :=
  label_line 0 (binary64 (cx # Z.to_pos w)) (binary64 (h / 2 # Z.to_pos h))
    (binary64 (2 * r # Z.to_pos w)) (binary64 (2 * r # Z.to_pos h)).


(** A concrete world for the examples: a generator whose [n]-th word is
    [37 n + 5], an empty file system on which no write fails. *)
Definition demo_rng : rng := MkRng (λ n, Z.of_nat n * 37 + 5) 0.
Definition demo_fs : filesystem := MkFs ∅ ∅ (λ _ _, None).
Definition demo_world : world := MkWorld demo_rng demo_fs.

(** A file system on which the write of the label of sample [k] in
    directory [labels_dir] breaks off, as on a full disk: the label file
    is created and stays empty.  Nothing else fails. *)
Definition label_fault_fs (labels_dir : string) (k : Z) : filesystem :=
  MkFs ∅ ∅
    (λ path _,
       if String.eqb path (label_filepath labels_dir k)
       then Some (Broken "[Errno 28] No space left on device" (TextFile ""))
       else None).

(** *** Tallies of a split *)

Definition is_success (f : future) : bool :=
  match fut_result f with Ok _ => true | Raise _ => false end.

Definition is_failure (f : future) : bool := negb (is_success f).

Fixpoint count_futures (p : future → bool) (l : list future) : nat :=
  match l with
  | [] => O
  | f :: l' => ((if p f then 1 else 0) + count_futures p l')%nat
  end.

(** How many times [line] was printed. *)
Fixpoint count_lines (line : string) (out : list string) : nat :=
  match out with
  | [] => O
  | l :: out' => ((if String.eqb l line then 1 else 0) + count_lines line out')%nat
  end.

(** Some write of job [k] fails with message [msg], in either way: the
    image, or the label once the image is saved. *)
Definition job_refused (fs : filesystem) (images_dir labels_dir : string)
    (k : Z) (msg : string) : Prop :=
  (∀ c, fault_message <$> fs_fault fs (img_filepath images_dir k) c = Some msg)
  ∨ ((∀ c, fs_fault fs (img_filepath images_dir k) c = None)
     ∧ ∀ c, fault_message <$> fs_fault fs (label_filepath labels_dir k) c = Some msg).

(** No write of job [i] fails. *)
Definition job_unhindered (fs : filesystem) (images_dir labels_dir : string)
    (i : Z) : Prop :=
  (∀ c, fs_fault fs (img_filepath images_dir i) c = None)
  ∧ ∀ c, fs_fault fs (label_filepath labels_dir i) c = None.

(** [fs'] comes after [fs]: the same faults, and no file has gone. *)
Definition fs_extends (fs fs' : filesystem) : Prop :=
  fs_fault fs' = fs_fault fs
  ∧ ∀ p, is_Some (fs_files fs !! p) → is_Some (fs_files fs' !! p).

(** [fs'] differs from [fs] at the paths [paths] at most, and has lost
    no file. *)
Definition touches_only (paths : list string) (fs fs' : filesystem) : Prop :=
  fs_extends fs fs'
  ∧ fs_dirs fs' = fs_dirs fs
  ∧ ∀ p, p ∉ paths → fs_files fs' !! p = fs_files fs !! p.

(** What [future.result()] gives for job [i] when only job [k] is
    refused a write, with message [msg]. *)
Definition isolated_outcome (k : Z) (msg : string) (i : Z) : future :=
  MkFuture i (if decide (i = k) then Raise (OSError msg) else Ok true).

(** The future of a job that succeeded. *)
Definition success_outcome (i : Z) : future := MkFuture i (Ok true).

(** The two lines printed when a split starts. *)
Definition split_header (split_name images_dir labels_dir : string) (num_samples : Z)
  : list string :=
  ["Created directories for '" +:+ split_name +:+ "': " +:+ images_dir
     +:+ " and " +:+ labels_dir;
   "Generating " +:+ fmt_d num_samples +:+ " samples for '" +:+ split_name
     +:+ "' split..."].

Definition split_images_dir (base_output_dir split_name : string) : string :=
  os_path_join (os_path_join base_output_dir split_name) "images".

Definition split_labels_dir (base_output_dir split_name : string) : string :=
  os_path_join (os_path_join base_output_dir split_name) "labels".

(** The future of a job whose centre draw had an empty range. *)
Definition empty_range_outcome (i : Z) : future :=
  MkFuture i (Raise (ValueError "empty range for randrange()")).

(** *** Reading a label line back

    What a consumer of the label files checks: one line, ended by the
    only newline, of five fields separated by single spaces, the first
    the class id [0], the others numbers with exactly six decimals. *)

Definition is_digit (c : ascii) : bool :=
  (48 <=? nat_of_ascii c)%nat && (nat_of_ascii c <=? 57)%nat.

Fixpoint string_forall (P : ascii → bool) (s : string) : bool :=
  match s with
  | EmptyString => true
  | String c s' => P c && string_forall P s'
  end.

Fixpoint occurs (c : ascii) (s : string) : bool :=
  match s with
  | EmptyString => false
  | String c' s' => Ascii.eqb c' c || occurs c s'
  end.

Fixpoint skip_digits (s : string) : string :=
  match s with
  | EmptyString => EmptyString
  | String c s' => if is_digit c then skip_digits s' else s
  end.

(** An optional minus sign, one digit or more, a point, six digits. *)
Definition is_fixed6 (s : string) : bool :=
  let body :=
    match s with
    | String c t => if Ascii.eqb c "-" then t else s
    | EmptyString => s
    end in
  match body with
  | String c _ => is_digit c
  | EmptyString => false
  end
  && match skip_digits body with
     | String c frac =>
         Ascii.eqb c "." && string_forall is_digit frac
         && (String.length frac =? 6)%nat
     | EmptyString => false
     end.

(** The pieces of [s] between the occurrences of [sep]. *)
Fixpoint split_on (sep : ascii) (s : string) : list string :=
  match s with
  | EmptyString => [EmptyString]
  | String c s' =>
      if Ascii.eqb c sep then EmptyString :: split_on sep s'
      else match split_on sep s' with
           | [] => [String c EmptyString]
           | t :: ts => String c t :: ts
           end
  end.

Definition well_formed_label (content : string) : bool :=
  match split_on "010" content with
  | [line; EmptyString] =>
      match split_on " " line with
      | [c; f1; f2; f3; f4] =>
          String.eqb c "0" && is_fixed6 f1 && is_fixed6 f2
          && is_fixed6 f3 && is_fixed6 f4
      | _ => false
      end
  | _ => false
  end.

(** The last character of a path, which tells an image path from a
    label path. *)
Fixpoint last_char (s : string) : option ascii :=
  match s with
  | EmptyString => None
  | String c EmptyString => Some c
  | String _ s' => last_char s'
  end.
Lemma bind_run {A B} (m : M A) (k : A → M B) st :
  (m ≫= k) st = match m st with
                | (Ok a, st') => k a st'
                | (Raise e, st') => (Raise e, st')
                end.
Proof. reflexivity. Qed.

Lemma rng_skip_skip a b g : rng_skip a (rng_skip b g) = rng_skip (b + a) g.
Proof. unfold rng_skip; simpl. f_equal. lia. Qed.

Lemma world_skip_skip a b st : world_skip a (world_skip b st) = world_skip (b + a) st.
Proof. unfold world_skip; simpl. by rewrite rng_skip_skip. Qed.

Lemma world_skip_0 st : world_skip 0 st = st.
Proof. destruct st as [[ws p] fs]. unfold world_skip, rng_skip; simpl. do 2 f_equal. lia. Qed.

Lemma draw_skip a b g j k : draw a b (rng_skip j g) k = draw a b g (j + k).
Proof. unfold draw, rng_peek, rng_skip; simpl. do 3 f_equal. lia. Qed.

Lemma draw_range a b g k : a ≤ b → a ≤ draw a b g k ≤ b.
Proof.
  intros Hab. unfold draw.
  pose proof (Z.mod_pos_bound (rng_peek g k) (b - a + 1)). lia.
Qed.

Lemma randint_run a b st :
  a ≤ b → randint a b st = (Ok (draw a b (w_rng st) 0), world_skip 1 st).
Proof.
  intros Hab. unfold randint. destruct (Z.ltb_spec b a); [lia | reflexivity].
Qed.

Lemma randint_empty a b st :
  b < a → randint a b st = (Raise (ValueError "empty range for randrange()"), st).
Proof.
  intros Hab. unfold randint. destruct (Z.ltb_spec b a); [reflexivity | lia].
Qed.

Lemma pixel_loop_run y cx cy r shift (xs : list Z) :
  ∀ (px : gmap (Z * Z) Z) st, NoDup xs →
  ∃ px' : gmap (Z * Z) Z,
    for_each xs (pixel_step y cx cy r shift) px st = (Ok px', world_skip (length xs) st)
    ∧ (∀ i x, xs !! i = Some x →
         px' !! (x, y)
         = Some (pixel_value x y cx cy r shift (draw 0 max_background_grey (w_rng st) i)))
    ∧ (∀ x' y', y' ≠ y ∨ x' ∉ xs → px' !! (x', y') = px !! (x', y')).
Proof.
  induction xs as [|a xs IH]; intros px st Hnd.
  - exists px. simpl. rewrite world_skip_0. split; [done|]. split; [|done].
    intros i x Hi. by rewrite lookup_nil in Hi.
  - apply list.NoDup_cons in Hnd as [Ha Hnd].
    set (px1 := <[(a, y) := pixel_value a y cx cy r shift
                               (draw 0 max_background_grey (w_rng st) 0)]> px).
    destruct (IH px1 (world_skip 1 st) Hnd) as (px' & Hrun & Hin & Hout).
    exists px'. split; [|split].
    + cbn [for_each]. rewrite bind_run. unfold pixel_step at 1.
      rewrite bind_run, randint_run by (unfold max_background_grey; lia).
      cbn. fold px1. rewrite Hrun, world_skip_skip. reflexivity.
    + intros [|i] x Hi; simpl in Hi.
      * inversion Hi; subst x. rewrite Hout by (right; done).
        unfold px1. by rewrite lookup_insert_eq.
      * rewrite (Hin i x Hi). simpl. by rewrite draw_skip.
    + intros x' y' Hxy. rewrite Hout.
      * unfold px1. apply lookup_insert_ne. intros [= -> ->].
        destruct Hxy as [?|Hx]; [done|]. apply Hx. left.
      * destruct Hxy as [?|Hx]; [by left|right]. intros ?. apply Hx. by right.
Qed.

Lemma image_loop_run width cx cy r shift (ys : list Z) :
  ∀ (px : gmap (Z * Z) Z) st, NoDup ys →
  ∃ px' : gmap (Z * Z) Z,
    for_each ys (row_step width cx cy r shift) px st
    = (Ok px', world_skip (length ys * Z.to_nat width) st)
    ∧ (∀ j y x, ys !! j = Some y → 0 ≤ x < width →
         px' !! (x, y)
         = Some (pixel_value x y cx cy r shift
                   (draw 0 max_background_grey (w_rng st)
                      (j * Z.to_nat width + Z.to_nat x))))
    ∧ (∀ x' y', y' ∉ ys → px' !! (x', y') = px !! (x', y')).
Proof.
  induction ys as [|a ys IH]; intros px st Hnd.
  - exists px. simpl. rewrite world_skip_0. split; [done|]. split; [|done].
    intros j y x Hj. by rewrite lookup_nil in Hj.
  - apply list.NoDup_cons in Hnd as [Ha Hnd].
    destruct (pixel_loop_run a cx cy r shift (range width) px st (NoDup_seqZ _ _))
      as (px1 & Hrow & Hin1 & Hout1).
    unfold range in Hrow, Hin1. rewrite length_seqZ in Hrow.
    destruct (IH px1 (world_skip (Z.to_nat width) st) Hnd) as (px' & Hrun & Hin & Hout).
    exists px'. split; [|split].
    + cbn [for_each]. rewrite bind_run. unfold row_step at 1, range at 1.
      rewrite Hrow, Hrun, world_skip_skip. reflexivity.
    + intros [|j] y x Hj Hx; simpl in Hj.
      * inversion Hj; subst y. rewrite Hout by done.
        rewrite (Hin1 (Z.to_nat x) x); [done|].
        apply lookup_seqZ. clear -Hx. split; lia.
      * rewrite (Hin j y x Hj Hx). cbn [world_skip w_rng]. rewrite draw_skip.
        do 3 f_equal. lia.
    + intros x' y' Hy. rewrite Hout.
      * apply Hout1. left. intros ->. apply Hy. left.
      * intros ?. apply Hy. by right.
Qed.

Lemma generate_static_image_run w h r cx cy path shift st :
  0 ≤ w → 0 ≤ h →
  let st1 := world_skip (Z.to_nat (w * h)) st in
  ∃ img, static_spec w h r cx cy shift (w_rng st) img
    ∧ generate_static_image w h r cx cy path shift st
      = match fs_fault (w_fs st) path (PngFile img) with
        | Some (Refused msg) => (Raise (OSError msg), st1)
        | flt =>
            if (w =? 0) || (h =? 0)
            then (Raise (ValueError "cannot write empty image as PNG"),
                  world_leave path Truncated st1)
            else
              match flt with
              | Some (Broken msg remains) =>
                  (Raise (OSError msg), world_leave path remains st1)
              | _ => (Ok img, world_write path (PngFile img) st1)
              end
        end.
Proof.
  intros Hw Hh st1.
  destruct (image_loop_run w cx cy r shift (range h) ∅ st (NoDup_seqZ _ _))
    as (px & Hrun & Hin & _).
  unfold range in Hrun, Hin. rewrite length_seqZ in Hrun.
  replace (Z.to_nat h * Z.to_nat w)%nat with (Z.to_nat (w * h)) in Hrun by nia.
  fold st1 in Hrun.
  exists (MkImage w h px). split.
  - split; [done|]. split; [done|]. simpl. intros x y Hx Hy.
    rewrite (Hin (Z.to_nat y) y x); [|apply lookup_seqZ; split; lia|done].
    do 3 f_equal. nia.
  - unfold generate_static_image, Image_new.
    destruct (Z.ltb_spec w 0); [lia|]. destruct (Z.ltb_spec h 0); [lia|].
    cbn [orb]. rewrite bind_run. cbn [mret M_ret ret im_px im_width im_height].
    unfold range at 1. rewrite bind_run, Hrun. rewrite bind_run.
    unfold Image_save. cbn [im_width im_height].
    change (w_fs st1) with (w_fs st).
    destruct (fs_fault (w_fs st) path (PngFile (MkImage w h px)))
      as [[msg|msg remains]|]; [reflexivity| |];
      destruct ((w =? 0) || (h =? 0)); reflexivity.
Qed.

Lemma generate_static_image_negative w h r cx cy path shift st :
  w < 0 ∨ h < 0 →
  generate_static_image w h r cx cy path shift st
  = (Raise (ValueError "Width and height must be >= 0"), st).
Proof.
  intros Hneg. unfold generate_static_image, Image_new. rewrite bind_run.
  destruct (Z.ltb_spec w 0); [reflexivity|].
  destruct (Z.ltb_spec h 0); [reflexivity|lia].
Qed.

Lemma truediv_pos a b st :
  0 < b → truediv a b st = (Ok (binary64 (a # Z.to_pos b)), st).
Proof. intros Hb. destruct b; [lia| |lia]. reflexivity. Qed.

Lemma generate_single_sample_run i w h r idir ldir st :
  r ≤ w - r → 0 ≤ w → 0 ≤ h →
  let cx := drawn_center_x w r (w_rng st) in
  let st2 := world_skip (2 + Z.to_nat (w * h)) st in
  ∃ img,
    static_spec w h r cx (h / 2) (drawn_shift (w_rng st)) (rng_skip 2 (w_rng st)) img
    ∧ generate_single_sample i w h r idir ldir st
      = match fs_fault (w_fs st) (img_filepath idir i) (PngFile img) with
        | Some (Refused msg) => (Raise (OSError msg), st2)
        | flt =>
            if (w =? 0) || (h =? 0)
            then (Raise (ValueError "cannot write empty image as PNG"),
                  world_leave (img_filepath idir i) Truncated st2)
            else
              match flt with
              | Some (Broken msg remains) =>
                  (Raise (OSError msg), world_leave (img_filepath idir i) remains st2)
              | _ =>
                  let st3 := world_write (img_filepath idir i) (PngFile img) st2 in
                  match fs_fault (w_fs st) (label_filepath ldir i)
                          (TextFile (sample_label w h r cx)) with
                  | Some (Refused msg) => (Raise (OSError msg), st3)
                  | Some (Broken msg remains) =>
                      (Raise (OSError msg),
                       world_write (label_filepath ldir i) remains st3)
                  | None =>
                      (Ok true,
                       world_write (label_filepath ldir i)
                         (TextFile (sample_label w h r cx)) st3)
                  end
              end
        end.
Proof.
  intros Hr Hw Hh cx st2.
  destruct (generate_static_image_run w h r cx (h / 2) (img_filepath idir i)
              (drawn_shift (w_rng st)) (world_skip 2 st) Hw Hh)
    as (img & Hspec & Hrun).
  exists img. split; [exact Hspec|].
  unfold generate_single_sample.
  rewrite bind_run, randint_run by lia.
  rewrite bind_run, randint_run by lia.
  rewrite world_skip_skip. cbn [Nat.add].
  rewrite bind_run.
  change (draw r (w - r) (w_rng st) 0) with cx.
  replace (20 + draw (-4) 3 (w_rng (world_skip 1 st)) 0)
    with (drawn_shift (w_rng st))
    by (unfold drawn_shift; cbn [world_skip w_rng]; by rewrite draw_skip).
  rewrite Hrun. rewrite world_skip_skip. fold st2.
  change (w_fs (world_skip 2 st)) with (w_fs st).
  destruct (fs_fault (w_fs st) (img_filepath idir i) (PngFile img))
    as [[msg|msg remains]|]; [reflexivity| |].
  - destruct ((w =? 0) || (h =? 0)); reflexivity.
  - destruct (Z.eqb_spec w 0) as [->|Hw0]; [reflexivity|].
    destruct (Z.eqb_spec h 0) as [->|Hh0]; [reflexivity|].
    cbn [orb].
    rewrite bind_run, truediv_pos by lia.
    rewrite bind_run, truediv_pos by lia.
    rewrite bind_run, truediv_pos by lia.
    rewrite bind_run, truediv_pos by lia.
    rewrite bind_run. unfold write_text.
    fold (sample_label w h r cx).
    change (w_fs (world_write (img_filepath idir i) (PngFile img) st2))
      with (MkFs (<[img_filepath idir i := PngFile img]> (fs_files (w_fs st)))
              (fs_dirs (w_fs st)) (fs_fault (w_fs st))).
    cbn [fs_fault].
    destruct (fs_fault (w_fs st) (label_filepath ldir i)
                (TextFile (sample_label w h r cx))) as [[msg|msg remains]|];
      reflexivity.
Qed.

Lemma generate_single_sample_empty_range i w h r idir ldir st :
  w - r < r →
  generate_single_sample i w h r idir ldir st
  = (Raise (ValueError "empty range for randrange()"), st).
Proof.
  intros Hr. unfold generate_single_sample.
  by rewrite bind_run, randint_empty.
Qed.

Lemma generate_single_sample_negative i w h r idir ldir st :
  r ≤ w - r → w < 0 ∨ h < 0 →
  generate_single_sample i w h r idir ldir st
  = (Raise (ValueError "Width and height must be >= 0"), world_skip 2 st).
Proof.
  intros Hr Hneg. unfold generate_single_sample.
  rewrite bind_run, randint_run by lia.
  rewrite bind_run, randint_run by lia.
  rewrite world_skip_skip. cbn [Nat.add].
  by rewrite bind_run, generate_static_image_negative.
Qed.

(** ** The circle test and the Euclidean distance *)



(** ** Inversion of successful runs *)

Lemma generate_static_image_ok_inv w h r cx cy path shift st img st' :
  generate_static_image w h r cx cy path shift st = (Ok img, st') →
  0 < w ∧ 0 < h
  ∧ static_spec w h r cx cy shift (w_rng st) img
  ∧ fs_fault (w_fs st) path (PngFile img) = None
  ∧ st' = world_write path (PngFile img) (world_skip (Z.to_nat (w * h)) st).
Proof.
  intros Hrun.
  destruct (Z.lt_ge_cases w 0) as [Hw|Hw].
  { rewrite generate_static_image_negative in Hrun by (by left). discriminate. }
  destruct (Z.lt_ge_cases h 0) as [Hh|Hh].
  { rewrite generate_static_image_negative in Hrun by (by right). discriminate. }
  destruct (generate_static_image_run w h r cx cy path shift st Hw Hh)
    as (img0 & Hspec & Heq).
  rewrite Heq in Hrun.
  destruct (fs_fault (w_fs st) path (PngFile img0)) as [[msg|msg remains]|] eqn:Hfault;
    [discriminate| |].
  - destruct ((w =? 0) || (h =? 0)); discriminate.
  - destruct (Z.eqb_spec w 0) as [->|Hw0]; [discriminate|].
    destruct (Z.eqb_spec h 0) as [->|Hh0]; [discriminate|].
    cbn [orb] in Hrun. inversion Hrun; subst img0.
    split; [lia|]. split; [lia|]. split; [exact Hspec|]. split; [exact Hfault|reflexivity].
Qed.

Lemma generate_single_sample_ok_inv i w h r idir ldir st b st' :
  generate_single_sample i w h r idir ldir st = (Ok b, st') →
  let cx := drawn_center_x w r (w_rng st) in
  b = true ∧ r ≤ w - r ∧ 0 < w ∧ 0 < h
  ∧ ∃ img,
      static_spec w h r cx (h / 2) (drawn_shift (w_rng st)) (rng_skip 2 (w_rng st)) img
      ∧ fs_fault (w_fs st) (img_filepath idir i) (PngFile img) = None
      ∧ fs_fault (w_fs st) (label_filepath ldir i) (TextFile (sample_label w h r cx)) = None
      ∧ st' = world_write (label_filepath ldir i) (TextFile (sample_label w h r cx))
                (world_write (img_filepath idir i) (PngFile img)
                   (world_skip (2 + Z.to_nat (w * h)) st)).
Proof.
  intros Hrun cx.
  destruct (Z.lt_ge_cases (w - r) r) as [Hr|Hr].
  { rewrite generate_single_sample_empty_range in Hrun by done. discriminate. }
  destruct (Z.lt_ge_cases w 0) as [Hw|Hw].
  { rewrite generate_single_sample_negative in Hrun by (done || by left). discriminate. }
  destruct (Z.lt_ge_cases h 0) as [Hh|Hh].
  { rewrite generate_single_sample_negative in Hrun by (done || by right). discriminate. }
  destruct (generate_single_sample_run i w h r idir ldir st Hr Hw Hh)
    as (img & Hspec & Heq).
  rewrite Heq in Hrun. clear Heq. fold cx in Hrun, Hspec.
  destruct (fs_fault (w_fs st) (img_filepath idir i) (PngFile img))
    as [[msg|msg remains]|] eqn:Hf1; [discriminate| |].
  - destruct ((w =? 0) || (h =? 0)); discriminate.
  - destruct (Z.eqb_spec w 0) as [->|Hw0]; [discriminate|].
    destruct (Z.eqb_spec h 0) as [->|Hh0]; [discriminate|].
    cbn [orb] in Hrun.
    destruct (fs_fault (w_fs st) (label_filepath ldir i)
                (TextFile (sample_label w h r cx))) as [[msg|msg remains]|] eqn:Hf2;
      [discriminate..|].
    inversion Hrun; subst. repeat split; try lia. by exists img.
Qed.

(** What a run gives when no write of the sample fails. *)
Lemma generate_single_sample_unhindered i w h r idir ldir st :
  r ≤ w - r → 0 < w → 0 < h →
  (∀ c, fs_fault (w_fs st) (img_filepath idir i) c = None) →
  (∀ c, fs_fault (w_fs st) (label_filepath ldir i) c = None) →
  let cx := drawn_center_x w r (w_rng st) in
  ∃ img,
    static_spec w h r cx (h / 2) (drawn_shift (w_rng st)) (rng_skip 2 (w_rng st)) img
    ∧ generate_single_sample i w h r idir ldir st
      = (Ok true,
         world_write (label_filepath ldir i) (TextFile (sample_label w h r cx))
           (world_write (img_filepath idir i) (PngFile img)
              (world_skip (2 + Z.to_nat (w * h)) st))).
Proof.
  intros Hr Hw Hh Himg Hlbl cx.
  destruct (generate_single_sample_run i w h r idir ldir st Hr) as (img & Hspec & Hrun);
    [lia..|].
  exists img. split; [exact Hspec|].
  rewrite Himg in Hrun.
  destruct (Z.eqb_spec w 0); [lia|]. destruct (Z.eqb_spec h 0); [lia|].
  cbn [orb] in Hrun. rewrite Hlbl in Hrun. exact Hrun.
Qed.

(** What a run gives when the image is saved and the write of the label
    fails with fault [flt]. *)
Lemma generate_single_sample_label_fault i w h r idir ldir st flt :
  r ≤ w - r → 0 < w → 0 < h →
  (∀ c, fs_fault (w_fs st) (img_filepath idir i) c = None) →
  (∀ c, fs_fault (w_fs st) (label_filepath ldir i) c = Some flt) →
  let cx := drawn_center_x w r (w_rng st) in
  ∃ img,
    static_spec w h r cx (h / 2) (drawn_shift (w_rng st)) (rng_skip 2 (w_rng st)) img
    ∧ generate_single_sample i w h r idir ldir st
      = (Raise (OSError (fault_message flt)),
         let st3 := world_write (img_filepath idir i) (PngFile img)
                      (world_skip (2 + Z.to_nat (w * h)) st) in
         match flt with
         | Refused _ => st3
         | Broken _ remains => world_write (label_filepath ldir i) remains st3
         end).
Proof.
  intros Hr Hw Hh Himg Hlbl cx.
  destruct (generate_single_sample_run i w h r idir ldir st Hr) as (img & Hspec & Hrun);
    [lia..|].
  exists img. split; [exact Hspec|].
  rewrite Himg in Hrun.
  destruct (Z.eqb_spec w 0); [lia|]. destruct (Z.eqb_spec h 0); [lia|].
  cbn [orb] in Hrun. rewrite Hlbl in Hrun. rewrite Hrun. by destruct flt.
Qed.

(** ** Strings produced by the formatters *)

Lemma append_cons c (s t : string) : String c s +:+ t = String c (s +:+ t).
Proof. reflexivity. Qed.

Lemma append_nil_l (t : string) : "" +:+ t = t.
Proof. reflexivity. Qed.

Lemma app_nil_r_string (s : string) : s +:+ "" = s.
Proof. induction s as [|c s IH]; [done|]. by rewrite append_cons, IH. Qed.

Lemma string_forall_app P (s t : string) :
  string_forall P (s +:+ t) = string_forall P s && string_forall P t.
Proof.
  induction s as [|c s IH]; [done|].
  rewrite append_cons. simpl. by rewrite IH, andb_assoc.
Qed.

Lemma length_app_string (s t : string) :
  String.length (s +:+ t) = (String.length s + String.length t)%nat.
Proof. induction s as [|c s IH]; [done|]. rewrite append_cons. simpl. by rewrite IH. Qed.

Lemma occurs_app c (s t : string) : occurs c (s +:+ t) = occurs c s || occurs c t.
Proof.
  induction s as [|c' s IH]; [done|].
  rewrite append_cons. simpl. by rewrite IH, orb_assoc.
Qed.

Lemma string_forall_occurs P c (s : string) :
  P c = false → string_forall P s = true → occurs c s = false.
Proof.
  intros Hc. induction s as [|c' s IH]; simpl; [done|].
  intros [Hc' Hs]%andb_true_iff. rewrite (IH Hs), orb_false_r.
  apply Ascii.eqb_neq. intros ->. congruence.
Qed.

Lemma is_digit_pretty_N_char d : is_digit (pretty_N_char d) = true.
Proof. unfold pretty_N_char. by repeat case_match. Qed.

Lemma pretty_N_go_digits x : ∀ s,
  string_forall is_digit s = true → string_forall is_digit (pretty_N_go x s) = true.
Proof.
  induction (N.lt_wf_0 x) as [x _ IH]; intros s Hs.
  destruct (decide (x = 0)%N) as [->|Hx]; [by rewrite pretty_N_go_0|].
  rewrite pretty_N_go_step by lia. apply IH.
  - apply N.div_lt; lia.
  - simpl. by rewrite is_digit_pretty_N_char.
Qed.

Lemma pretty_N_go_nonempty x : ∀ s, s ≠ "" → pretty_N_go x s ≠ "".
Proof.
  induction (N.lt_wf_0 x) as [x _ IH]; intros s Hs.
  destruct (decide (x = 0)%N) as [->|Hx]; [by rewrite pretty_N_go_0|].
  rewrite pretty_N_go_step by lia. apply IH; [apply N.div_lt; lia|done].
Qed.

Lemma pretty_N_digits (x : N) :
  string_forall is_digit (pretty x) = true ∧ pretty x ≠ "".
Proof.
  unfold pretty, pretty_N. case_decide as Hx; [done|]. split.
  - by apply pretty_N_go_digits.
  - rewrite pretty_N_go_step by lia. by apply pretty_N_go_nonempty.
Qed.

Lemma pretty_Z_digits (n : Z) :
  0 ≤ n → string_forall is_digit (pretty n) = true ∧ pretty n ≠ "".
Proof.
  intros Hn. destruct n as [|p|p]; [done| |lia].
  apply (pretty_N_digits (Npos p)).
Qed.

Lemma fixed_digits_digits k : ∀ n acc,
  string_forall is_digit acc = true →
  string_forall is_digit (fixed_digits k n acc) = true.
Proof.
  induction k as [|k IH]; intros n acc Hacc; simpl; [done|].
  apply IH. simpl. by rewrite is_digit_pretty_N_char.
Qed.

Lemma fixed_digits_length k : ∀ n acc,
  String.length (fixed_digits k n acc) = (k + String.length acc)%nat.
Proof.
  induction k as [|k IH]; intros n acc; simpl; [done|].
  rewrite IH. simpl. lia.
Qed.

Lemma skip_digits_app (ip rest : string) c :
  string_forall is_digit ip = true → is_digit c = false →
  skip_digits (ip +:+ String c rest) = String c rest.
Proof.
  intros Hip Hc. induction ip as [|d ip IH].
  - rewrite append_nil_l. simpl. by rewrite Hc.
  - rewrite append_cons. simpl in Hip |- *.
    apply andb_true_iff in Hip as [Hd Hip]. rewrite Hd. by apply IH.
Qed.

Lemma is_fixed6_intro (ip fp : string) :
  string_forall is_digit ip = true → ip ≠ "" →
  string_forall is_digit fp = true → String.length fp = 6%nat →
  is_fixed6 (ip +:+ "." +:+ fp) = true ∧ is_fixed6 ("-" +:+ ip +:+ "." +:+ fp) = true.
Proof.
  intros Hip Hne Hfp Hlen.
  assert (is_fixed6 ("-" +:+ ip +:+ "." +:+ fp) = true) as Hneg.
  { change ("-" +:+ ip +:+ "." +:+ fp) with (String "-" (ip +:+ String "." fp)).
    unfold is_fixed6. rewrite Ascii.eqb_refl.
    rewrite skip_digits_app by done.
    rewrite Ascii.eqb_refl, Hfp, Hlen.
    destruct ip as [|c ip]; [done|]. rewrite append_cons. simpl in Hip.
    apply andb_true_iff in Hip as [-> _]. done. }
  split; [|done].
  destruct ip as [|c ip]; [done|].
  pose proof Hip as Hip'. simpl in Hip'. apply andb_true_iff in Hip' as [Hc _].
  change (String c ip +:+ "." +:+ fp) with (String c (ip +:+ String "." fp)).
  unfold is_fixed6.
  destruct (Ascii.eqb_spec c "-") as [->|_]; [done|].
  rewrite Hc.
  change (String c (ip +:+ String "." fp)) with (String c ip +:+ String "." fp).
  rewrite skip_digits_app by done. by rewrite Ascii.eqb_refl, Hfp, Hlen.
Qed.

Lemma fmt_6f_parts (v : Q) :
  ∃ ip fp : string,
    string_forall is_digit ip = true ∧ ip ≠ ""
    ∧ string_forall is_digit fp = true ∧ String.length fp = 6%nat
    ∧ (fmt_6f v = ip +:+ "." +:+ fp ∨ fmt_6f v = "-" +:+ ip +:+ "." +:+ fp).
Proof.
  unfold fmt_6f.
  set (scaled := round_half_even (Z.abs (Qnum v) * 1000000) (Z.pos (Qden v))).
  assert (0 ≤ scaled) as Hs.
  { unfold scaled, round_half_even.
    assert (0 ≤ (Z.abs (Qnum v) * 1000000) `div` Z.pos (Qden v))
      by (apply Z.div_pos; lia).
    repeat case_match; lia. }
  exists (pretty (scaled `div` 1000000)), (fixed_digits 6 (scaled `mod` 1000000) "").
  destruct (pretty_Z_digits (scaled `div` 1000000)) as [Hd Hne];
    [apply Z.div_pos; lia|].
  split; [done|]. split; [done|].
  split; [by apply fixed_digits_digits|]. split; [by rewrite fixed_digits_length|].
  destruct (Qnum v <? 0); [by right|by left].
Qed.

Lemma fmt_6f_fixed6 (v : Q) : is_fixed6 (fmt_6f v) = true.
Proof.
  destruct (fmt_6f_parts v) as (ip & fp & Hip & Hne & Hfp & Hlen & [-> | ->]);
    by apply is_fixed6_intro.
Qed.

Lemma occurs_cons c c' (s : string) :
  occurs c (String c' s) = Ascii.eqb c' c || occurs c s.
Proof. reflexivity. Qed.

Lemma fmt_6f_no_char (v : Q) c :
  is_digit c = false → c ≠ "-"%char → c ≠ "."%char → occurs c (fmt_6f v) = false.
Proof.
  intros Hc Hm Hp.
  assert (∀ s : string, string_forall is_digit s = true → occurs c s = false) as Hd
    by (intros s; by apply string_forall_occurs).
  assert (Ascii.eqb "." c = false) as Hp' by (apply Ascii.eqb_neq; congruence).
  assert (Ascii.eqb "-" c = false) as Hm' by (apply Ascii.eqb_neq; congruence).
  destruct (fmt_6f_parts v) as (ip & fp & Hip & Hne & Hfp & Hlen & [-> | ->]).
  - change (ip +:+ "." +:+ fp) with (ip +:+ String "." fp).
    by rewrite occurs_app, occurs_cons, (Hd ip), (Hd fp), Hp'.
  - change ("-" +:+ ip +:+ "." +:+ fp) with (String "-" (ip +:+ String "." fp)).
    by rewrite occurs_cons, occurs_app, occurs_cons, (Hd ip), (Hd fp), Hp', Hm'.
Qed.

Lemma append_assoc (s t u : string) : (s +:+ t) +:+ u = s +:+ t +:+ u.
Proof. induction s as [|c s IH]; [done|]. by rewrite !append_cons, IH. Qed.

Lemma split_on_cons sep c (s : string) :
  split_on sep (String c s)
  = if Ascii.eqb c sep then "" :: split_on sep s
    else match split_on sep s with
         | [] => [String c ""]
         | t :: ts => String c t :: ts
         end.
Proof. reflexivity. Qed.

Lemma split_on_nonnil sep (s : string) : split_on sep s ≠ [].
Proof.
  destruct s as [|c s]; [done|]. rewrite split_on_cons.
  destruct (Ascii.eqb c sep); [done|]. by destruct (split_on sep s).
Qed.

Lemma split_on_sep sep (s : string) :
  split_on sep (String sep s) = "" :: split_on sep s.
Proof. by rewrite split_on_cons, Ascii.eqb_refl. Qed.

Lemma split_on_sep_app sep (s : string) :
  split_on sep (String sep "" +:+ s) = "" :: split_on sep s.
Proof. apply split_on_sep. Qed.

Lemma split_on_app sep (a s : string) :
  occurs sep a = false →
  split_on sep (a +:+ s) = (a +:+ hd "" (split_on sep s)) :: tl (split_on sep s).
Proof.
  induction a as [|c a IH]; intros Ha.
  - rewrite !append_nil_l. pose proof (split_on_nonnil sep s).
    by destruct (split_on sep s).
  - rewrite occurs_cons in Ha. apply orb_false_iff in Ha as [Hc Ha].
    rewrite !append_cons, split_on_cons, Hc, (IH Ha). reflexivity.
Qed.

Lemma split_on_clean sep (a : string) : occurs sep a = false → split_on sep a = [a].
Proof.
  intros Ha. rewrite <- (app_nil_r_string a) at 1.
  rewrite split_on_app by done. simpl. by rewrite app_nil_r_string.
Qed.

Lemma label_line_well_formed (cx cy w h : Q) :
  well_formed_label (label_line 0 cx cy w h) = true.
Proof.
  assert (∀ v, occurs "010" (fmt_6f v) = false) as Hnl
    by (intros v; by apply fmt_6f_no_char).
  assert (∀ v, occurs " " (fmt_6f v) = false) as Hsp
    by (intros v; by apply fmt_6f_no_char).
  set (line := "0" +:+ " " +:+ fmt_6f cx +:+ " " +:+ fmt_6f cy +:+ " "
               +:+ fmt_6f w +:+ " " +:+ fmt_6f h).
  assert (label_line 0 cx cy w h = line +:+ newline) as ->.
  { unfold label_line, line. change (fmt_d 0) with "0".
    by rewrite !append_assoc. }
  unfold well_formed_label.
  assert (occurs "010" line = false) as Hline.
  { unfold line. by rewrite !occurs_app, !Hnl. }
  rewrite split_on_app by done.
  change (split_on "010" newline) with [""; ""]. cbn [hd tl].
  rewrite app_nil_r_string.
  unfold line.
  rewrite (split_on_app " " "0") by done. rewrite split_on_sep_app. cbn [hd tl].
  rewrite (split_on_app " " (fmt_6f cx)) by done. rewrite split_on_sep_app. cbn [hd tl].
  rewrite (split_on_app " " (fmt_6f cy)) by done. rewrite split_on_sep_app. cbn [hd tl].
  rewrite (split_on_app " " (fmt_6f w)) by done. rewrite split_on_sep_app. cbn [hd tl].
  rewrite (split_on_clean " " (fmt_6f h)) by done.
  rewrite !app_nil_r_string, !fmt_6f_fixed6. reflexivity.
Qed.

(** ** Paths *)

Lemma last_char_app (s t : string) : t ≠ "" → last_char (s +:+ t) = last_char t.
Proof.
  intros Ht. induction s as [|c s IH]; [done|].
  rewrite append_cons. simpl. rewrite IH.
  destruct (s +:+ t) eqn:E; [|done].
  destruct s; [by rewrite append_nil_l in E|by rewrite append_cons in E].
Qed.

Lemma os_path_join_last (a b : string) :
  b ≠ "" → last_char (os_path_join a b) = last_char b.
Proof.
  intros Hb. unfold os_path_join. repeat case_match; try done.
  - by apply last_char_app.
  - rewrite <- append_assoc. by apply last_char_app.
Qed.

Lemma img_filepath_last idir i : last_char (img_filepath idir i) = Some "g"%char.
Proof.
  unfold img_filepath. rewrite os_path_join_last by done.
  change ("image_" +:+ fmt_05d i +:+ ".png")
    with (String "i" ("mage_" +:+ fmt_05d i +:+ ".png")).
  rewrite <- append_cons, <- append_assoc. by rewrite last_char_app.
Qed.

Lemma label_filepath_last ldir i : last_char (label_filepath ldir i) = Some "t"%char.
Proof.
  unfold label_filepath. rewrite os_path_join_last by done.
  change ("image_" +:+ fmt_05d i +:+ ".txt")
    with (String "i" ("mage_" +:+ fmt_05d i +:+ ".txt")).
  rewrite <- append_cons, <- append_assoc. by rewrite last_char_app.
Qed.

Lemma img_label_path_ne idir ldir i j : img_filepath idir i ≠ label_filepath ldir j.
Proof.
  intros Heq. pose proof (img_filepath_last idir i) as Hg.
  rewrite Heq, label_filepath_last in Hg. discriminate.
Qed.
(** ** Rounding to the nearest integer and to the nearest double *)

Lemma round_half_even_near (n d : Z) :
  0 < d → 2 * Z.abs (round_half_even n d * d - n) ≤ d.
Proof.
  intros Hd. unfold round_half_even.
  pose proof (Z.div_mod n d ltac:(lia)) as Hdm.
  pose proof (Z.mod_pos_bound n d Hd) as Hr.
  destruct (Z.ltb_spec (2 * (n `mod` d)) d); [nia|].
  destruct (Z.ltb_spec d (2 * (n `mod` d))); [nia|].
  destruct (Z.even (n `div` d)); nia.
Qed.

Lemma round_half_even_nonneg (n d : Z) : 0 ≤ n → 0 < d → 0 ≤ round_half_even n d.
Proof.
  intros Hn Hd. unfold round_half_even.
  pose proof (Z.div_pos n d Hn Hd).
  destruct (_ <? _); [lia|]. destruct (_ <? _); [lia|]. destruct (Z.even _); lia.
Qed.

Lemma round_half_even_le (n d k : Z) : 0 < d → n ≤ k * d → round_half_even n d ≤ k.
Proof.
  intros Hd Hn. pose proof (round_half_even_near n d Hd). nia.
Qed.

Lemma round_half_even_small (n d : Z) : 0 ≤ n → 2 * n ≤ d → 0 < d → round_half_even n d = 0.
Proof.
  intros Hn Hnd Hd. unfold round_half_even.
  rewrite Z.div_small, Z.mod_small by lia.
  destruct (Z.ltb_spec (2 * n) d); [done|].
  destruct (Z.ltb_spec d (2 * n)); [lia|done].
Qed.

Lemma pow2_pos (e : Z) : 0 < 2 ^ Z.max 0 e.
Proof. apply Z.pow_pos_nonneg; lia. Qed.

(** The value of [binary64] on a positive quotient. *)
Lemma binary64_pos (a : Z) (p : positive) :
  0 < a →
  let e := binary64_exponent a (Zpos p) in
  binary64 (a # p)
  = round_half_even (a * 2 ^ Z.max 0 (- e)) (Zpos p * 2 ^ Z.max 0 e) * 2 ^ Z.max 0 e
    # Z.to_pos (2 ^ Z.max 0 (- e)).
Proof.
  intros Ha e. unfold binary64. cbn [Qnum Qden].
  rewrite Z.abs_eq by lia.
  destruct (Z.eqb_spec a 0); [lia|]. destruct (Z.ltb_spec a 0); [lia|]. reflexivity.
Qed.

(** A quotient of the unit interval is rounded within the unit
    interval: 0 and 1 are doubles. *)
Lemma binary64_unit_interval (a b : Z) :
  0 ≤ a ≤ b → 0 < b → (0 <= binary64 (a # Z.to_pos b) <= 1)%Q.
Proof.
  intros Ha Hb. destruct b as [|p|p]; [lia| |lia]. cbn [Z.to_pos].
  destruct (Z.eq_dec a 0) as [->|Ha0]; [done|].
  rewrite binary64_pos by lia.
  generalize (binary64_exponent a (Z.pos p)). intros e.
  pose proof (pow2_pos e) as H1. pose proof (pow2_pos (- e)) as H2.
  destruct (Z.le_gt_cases e 0) as [He|He].
  - replace (Z.max 0 e) with 0 in * by lia. rewrite Z.pow_0_r, !Z.mul_1_r.
    set (P2 := 2 ^ Z.max 0 (- e)) in *.
    pose proof (round_half_even_nonneg (a * P2) (Z.pos p) ltac:(nia) ltac:(lia)).
    pose proof (round_half_even_le (a * P2) (Z.pos p) P2 ltac:(lia) ltac:(nia)).
    unfold Qle. cbn [Qnum Qden]. rewrite Z2Pos.id by done. lia.
  - replace (Z.max 0 (- e)) with 0 in * by lia. rewrite Z.pow_0_r, !Z.mul_1_r.
    assert (2 ≤ 2 ^ Z.max 0 e).
    { replace (Z.max 0 e) with (Z.succ (e - 1)) by lia.
      rewrite Z.pow_succ_r by lia.
      pose proof (Z.pow_pos_nonneg 2 (e - 1) ltac:(lia) ltac:(lia)). lia. }
    rewrite round_half_even_small by nia. done.
Qed.

(** The exponent is normal, or the least one. *)
Lemma binary64_exponent_normal (a b : Z) :
  0 < a → 0 < b →
  let e := binary64_exponent a b in
  2 ^ 52 * (b * 2 ^ Z.max 0 e) ≤ a * 2 ^ Z.max 0 (- e) ∨ e = -1074.
Proof.
  intros Ha Hb e.
  destruct (Z.log2_spec a Ha) as [Hla _]. destruct (Z.log2_spec b Hb) as [_ Hlb].
  pose proof (Z.log2_nonneg a) as Hla0. pose proof (Z.log2_nonneg b) as Hlb0.
  set (la := Z.log2 a) in *. set (lb := Z.log2 b) in *.
  assert (∀ k, k = la - lb - 53 →
               2 ^ 52 * (b * 2 ^ Z.max 0 k) ≤ a * 2 ^ Z.max 0 (- k)) as Hlow.
  { intros k Hk. destruct (Z.le_gt_cases 0 k) as [Hk0|Hk0].
    - replace (Z.max 0 k) with k by lia. replace (Z.max 0 (- k)) with 0 by lia.
      rewrite Z.pow_0_r, Z.mul_1_r.
      assert (2 ^ 52 * (2 ^ Z.succ lb * 2 ^ k) = 2 ^ la) as Heq.
      { rewrite <- !Z.pow_add_r by lia. f_equal. lia. }
      pose proof (Z.pow_pos_nonneg 2 k ltac:(lia) Hk0). nia.
    - replace (Z.max 0 k) with 0 by lia. replace (Z.max 0 (- k)) with (- k) by lia.
      rewrite Z.pow_0_r, Z.mul_1_r.
      assert (2 ^ la * 2 ^ (- k) = 2 ^ 52 * 2 ^ Z.succ lb) as Heq.
      { rewrite <- !Z.pow_add_r by lia. f_equal. lia. }
      pose proof (Z.pow_pos_nonneg 2 (- k) ltac:(lia) ltac:(lia)). nia. }
  unfold e, binary64_exponent. fold la lb.
  destruct (Z.leb_spec (2 ^ 52 * (b * 2 ^ Z.max 0 (la - lb - 52)))
              (a * 2 ^ Z.max 0 (- (la - lb - 52)))) as [Htest|Htest].
  - destruct (Z.le_gt_cases (-1074) (la - lb - 52)) as [Hc|Hc].
    + left. by rewrite (Z.max_l (la - lb - 52) (-1074)) by lia.
    + right. lia.
  - destruct (Z.le_gt_cases (-1074) (la - lb - 52 - 1)) as [Hc|Hc].
    + left. rewrite (Z.max_l (la - lb - 52 - 1) (-1074)) by lia. apply Hlow. lia.
    + right. lia.
Qed.

(** [binary64] is within half a unit in the last place of its argument:
    a relative error of at most [2^-53], or an absolute error of at most
    [2^-1075] in the subnormal range. *)
Lemma binary64_pos_near (a : Z) (p : positive) :
  0 < a →
  (Qabs (binary64 (a # p) - (a # p)) <= (a # p) * (1 # 2 ^ 53) + (1 # 2 ^ 1075))%Q.
Proof.
  intros Ha. rewrite binary64_pos by done.
  destruct (binary64_exponent_normal a (Zpos p) Ha ltac:(done)) as [Hnorm|Hmin].
  - set (e := binary64_exponent a (Z.pos p)) in *.
    pose proof (pow2_pos e) as H1. pose proof (pow2_pos (- e)) as H2.
    set (P1 := 2 ^ Z.max 0 e) in *. set (P2 := 2 ^ Z.max 0 (- e)) in *.
    pose proof (round_half_even_near (a * P2) (Z.pos p * P1) ltac:(lia)) as Hnear.
    set (m := round_half_even _ _) in *.
    apply Qabs_Qle_condition.
    unfold Qle, Qminus, Qplus, Qopp, Qmult. cbn [Qnum Qden].
    rewrite !Pos2Z.inj_mul, !Z2Pos.id by done.
    rewrite !Pos2Z.inj_pow.
    set (K := (Z.pos 2 ^ Z.pos 1075)) in *.
    assert (0 < K) by (apply Z.pow_pos_nonneg; lia).
    change (Z.pos 2 ^ Z.pos 53) with (2 * 2 ^ 52).
    change (2 ^ 52) with 4503599627370496 in *.
    split; nia.
  - remember (binary64_exponent a (Z.pos p)) as e eqn:He. subst e. rewrite Hmin.
    change (Z.max 0 (-1074)) with 0. change (Z.max 0 (- -1074)) with 1074.
    rewrite Z.pow_0_r, !Z.mul_1_r.
    pose proof (Z.pow_pos_nonneg 2 1074 ltac:(lia) ltac:(lia)) as H2.
    set (P2 := 2 ^ 1074) in *.
    pose proof (round_half_even_near (a * P2) (Z.pos p) ltac:(lia)) as Hnear.
    set (m := round_half_even _ _) in *.
    apply Qabs_Qle_condition.
    unfold Qle, Qminus, Qplus, Qopp, Qmult. cbn [Qnum Qden].
    rewrite !Pos2Z.inj_mul, !Z2Pos.id by done.
    rewrite !Pos2Z.inj_pow.
    change (Z.pos 2 ^ Z.pos 1075) with (2 * P2).
    assert (0 < Z.pos 2 ^ Z.pos 53) by (apply Z.pow_pos_nonneg; lia).
    set (K := (Z.pos 2 ^ Z.pos 53)) in *.
    split; nia.
Qed.

Lemma binary64_opp (a p : positive) : binary64 (Z.neg a # p) = (- binary64 (Z.pos a # p))%Q.
Proof. reflexivity. Qed.

Lemma binary64_near (q : Q) :
  (Qabs (binary64 q - q) <= Qabs q * (1 # 2 ^ 53) + (1 # 2 ^ 1075))%Q.
Proof.
  destruct q as [[|a|a] p].
  - done.
  - apply (binary64_pos_near (Z.pos a) p). done.
  - rewrite binary64_opp.
    pose proof (binary64_pos_near (Z.pos a) p ltac:(done)) as Hnear.
    change (Z.neg a # p) with (- (Z.pos a # p))%Q.
    assert (- binary64 (Z.pos a # p) - - (Z.pos a # p)
            == - (binary64 (Z.pos a # p) - (Z.pos a # p)))%Q as -> by ring.
    by rewrite !Qabs_opp.
Qed.

Lemma Qmake_truediv (a b : Z) :
  0 < b → (a # Z.to_pos b == inject_Z a / inject_Z b)%Q.
Proof.
  intros Hb. destruct b as [|p|p]; [lia| |lia].
  unfold Qeq, Qdiv, Qmult, Qinv, inject_Z. simpl. lia.
Qed.

(** The double of a quotient of integers, against the exact quotient. *)
Lemma binary64_truediv_near (a b : Z) :
  0 < b →
  (Qabs (binary64 (a # Z.to_pos b) - inject_Z a / inject_Z b)
   <= Qabs (inject_Z a / inject_Z b) * (1 # 2 ^ 53) + (1 # 2 ^ 1075))%Q.
Proof.
  intros Hb. rewrite <- (Qmake_truediv a b Hb). apply binary64_near.
Qed.

(** Doubles that the examples of the design document name. *)
Example binary64_examples :
  fmt_6f (binary64 (63 # 640)) = "0.098437"
  ∧ fmt_6f (binary64 (1 # 640)) = "0.001563"
  ∧ fmt_6f (binary64 (3 # 10)) = "0.300000"
  ∧ (binary64 (1 # 2) == 1 # 2)%Q
  ∧ (binary64 (3 # 10) == 5404319552844595 # 18014398509481984)%Q.
Proof. vm_compute. done. Qed.

(** ** What a successful sample leaves behind *)

Lemma pixel_value_byte x y cx cy r shift base :
  0 ≤ base ≤ 150 → 0 ≤ pixel_value x y cx cy r shift base ≤ 255.
Proof.
  intros Hb. unfold pixel_value, clamp_byte.
  destruct (inside_circle x y cx cy r); lia.
Qed.

Lemma static_spec_getpixel w h r cx cy shift g img x y :
  static_spec w h r cx cy shift g img → 0 ≤ x < w → 0 ≤ y < h →
  getpixel img x y
  = pixel_value x y cx cy r shift
      (draw 0 max_background_grey g (Z.to_nat (y * w + x))).
Proof.
  intros (_ & _ & Hpx) Hx Hy. unfold getpixel. by rewrite (Hpx x y Hx Hy).
Qed.

Lemma base_draw_range g k : 0 ≤ draw 0 max_background_grey g k ≤ 150.
Proof. apply (draw_range 0 150). lia. Qed.

Lemma drawn_shift_range g : 16 ≤ drawn_shift g ≤ 23.
Proof.
  unfold drawn_shift. pose proof (draw_range (-4) 3 g 1). lia.
Qed.

Lemma generate_single_sample_ok_files i w h r idir ldir st b st' :
  generate_single_sample i w h r idir ldir st = (Ok b, st') →
  let cx := drawn_center_x w r (w_rng st) in
  r ≤ cx ≤ w - r ∧ 0 < w ∧ 0 < h
  ∧ ∃ img,
      static_spec w h r cx (h / 2) (drawn_shift (w_rng st)) (rng_skip 2 (w_rng st)) img
      ∧ fs_files (w_fs st') !! img_filepath idir i = Some (PngFile img)
      ∧ fs_files (w_fs st') !! label_filepath ldir i
        = Some (TextFile (sample_label w h r cx)).
Proof.
  intros Hrun cx.
  destruct (generate_single_sample_ok_inv _ _ _ _ _ _ _ _ _ Hrun)
    as (_ & Hr & Hw & Hh & img & Hspec & _ & _ & ->).
  split; [apply draw_range; lia|]. split; [done|]. split; [done|].
  exists img. split; [done|].
  unfold world_write. cbn [w_fs fs_files]. split.
  - rewrite lookup_insert_ne by (intros Heq; by apply (img_label_path_ne idir ldir i i)).
    by rewrite lookup_insert_eq.
  - by rewrite lookup_insert_eq.
Qed.
(** ** Properties of the synthesiser *)



(** ** Properties of one sample *)

(** C2, as the code has it.  [generate_single_sample] checks no
    geometry and knows no InvalidGeometry error.  With positive width
    and height it fails before any file is written exactly when
    [width - radius < radius]: the draw of the centre has an empty
    range, [randint] raises ValueError and the state is untouched.  The
    height is never compared with the radius.  Whenever
    [radius <= width - radius], which includes [radius = width / 2] and
    [radius >= height / 2], and no write is refused, the call returns
    True and has saved a [width] x [height] image and its label. *)
Theorem sample_geometry_gate i w h r idir ldir st :
  0 < w → 0 < h →
  (w - r < r →
   generate_single_sample i w h r idir ldir st
   = (Raise (ValueError "empty range for randrange()"), st))
  ∧ (r ≤ w - r →
     (∀ c, fs_fault (w_fs st) (img_filepath idir i) c = None) →
     (∀ c, fs_fault (w_fs st) (label_filepath ldir i) c = None) →
     ∃ img st',
       generate_single_sample i w h r idir ldir st = (Ok true, st')
       ∧ im_width img = w ∧ im_height img = h
       ∧ fs_files (w_fs st') !! img_filepath idir i = Some (PngFile img)
       ∧ is_Some (fs_files (w_fs st') !! label_filepath ldir i)).
Proof.
  intros Hw Hh. split.
  - apply generate_single_sample_empty_range.
  - intros Hr Himg Hlbl.
    destruct (generate_single_sample_unhindered i w h r idir ldir st Hr Hw Hh Himg Hlbl)
      as (img & Hspec & Hrun).
    eexists img, _. split; [exact Hrun|].
    destruct (generate_single_sample_ok_files _ _ _ _ _ _ _ _ _ Hrun)
      as (_ & _ & _ & img' & Hspec' & Hf1 & Hf2).
    destruct Hspec as (Hiw & Hih & _).
    assert (img' = img) as ->.
    { unfold world_write in Hf1. cbn [w_fs fs_files] in Hf1.
      rewrite lookup_insert_ne in Hf1
        by (intros Heq; by apply (img_label_path_ne idir ldir i i)).
      rewrite lookup_insert_eq in Hf1. congruence. }
    by rewrite Hf2.
Qed.

Lemma sample_geometry_gate_witness :
  0 < 4 ∧ 0 < 2
  ∧ ∃ img st',
      generate_single_sample 0 4 2 1 "images" "labels" demo_world = (Ok true, st')
      ∧ im_width img = 4 ∧ im_height img = 2
      ∧ fs_files (w_fs st') !! img_filepath "images" 0 = Some (PngFile img)
      ∧ is_Some (fs_files (w_fs st') !! label_filepath "labels" 0).
Proof.
  split; [lia|]. split; [lia|].
  apply (sample_geometry_gate 0 4 2 1 "images" "labels" demo_world);
    [lia | lia | lia | reflexivity | reflexivity].
Defined.

(** C2 as the design document words it fails: radius 1 in a 4 x 2 image
    is not smaller than [min(4, 2) / 2], yet the call succeeds and
    writes both files. *)
Lemma invalid_geometry_not_rejected :
  Z.min 4 2 ≤ 2 * 1
  ∧ ∃ st',
      generate_single_sample 0 4 2 1 "images" "labels" demo_world = (Ok true, st')
      ∧ is_Some (fs_files (w_fs st') !! "images/image_00000.png")
      ∧ is_Some (fs_files (w_fs st') !! "labels/image_00000.txt").
Proof.
  split; [vm_compute; discriminate|].
  destruct (generate_single_sample 0 4 2 1 "images" "labels" demo_world)
    as [[b|e] st'] eqn:Hrun; [|vm_compute in Hrun; discriminate].
  assert (b = true) as -> by (vm_compute in Hrun; congruence).
  exists st'. split; [reflexivity|].
  destruct (generate_single_sample_ok_files _ _ _ _ _ _ _ _ _ Hrun)
    as (_ & _ & _ & img & _ & Hf1 & Hf2).
  change (img_filepath "images" 0) with "images/image_00000.png" in Hf1.
  change (label_filepath "labels" 0) with "labels/image_00000.txt" in Hf2.
  by rewrite Hf1, Hf2.
Qed.
(** C3. The label is derived from the circle and the image size alone:
    class id 0, [cx = center_x / width], [cy = center_y / height] with
    [center_y = height // 2], [w = 2 radius / width] and
    [h = 2 radius / height].  The divisions are those of Python floats:
    each field is the double nearest to the quotient, hence within a
    relative error of [2^-53] of it (or within [2^-1075] for a quotient
    in the subnormal range).  For a 400 x 200 image and radius 60 this
    gives the doubles of [0.3] and [0.6] and exactly [0.5] for [w], [h]
    and [cy], printed as [0.300000], [0.600000] and [0.500000],
    whatever is drawn; only the [cx] field changes with the drawn
    centre. *)
Theorem label_geometry i w h r idir ldir st b st' :
  generate_single_sample i w h r idir ldir st = (Ok b, st') →
  let center_x := drawn_center_x w r (w_rng st) in
  let center_y := h / 2 in
  let near (v q : Q) :=
    (Qabs (v - q) <= Qabs q * (1 # 2 ^ 53) + (1 # 2 ^ 1075))%Q in
  ∃ ncx ncy nw nh : Q,
    fs_files (w_fs st') !! label_filepath ldir i
    = Some (TextFile (label_line 0 ncx ncy nw nh))
    ∧ label_line 0 ncx ncy nw nh
      = "0 " +:+ fmt_6f ncx +:+ " " +:+ fmt_6f ncy +:+ " " +:+ fmt_6f nw +:+ " "
        +:+ fmt_6f nh +:+ newline
    ∧ ncx = binary64 (center_x # Z.to_pos w)
    ∧ ncy = binary64 (center_y # Z.to_pos h)
    ∧ nw = binary64 (2 * r # Z.to_pos w)
    ∧ nh = binary64 (2 * r # Z.to_pos h)
    ∧ near ncx (inject_Z center_x / inject_Z w)%Q
    ∧ near ncy (inject_Z center_y / inject_Z h)%Q
    ∧ near nw (inject_Z (2 * r) / inject_Z w)%Q
    ∧ near nh (inject_Z (2 * r) / inject_Z h)%Q
    ∧ (w = 400 → h = 200 → r = 60 →
       center_y = 100
       ∧ nw = binary64 (3 # 10) ∧ nh = binary64 (6 # 10) ∧ (ncy == 1 # 2)%Q
       ∧ fmt_6f nw = "0.300000" ∧ fmt_6f nh = "0.600000" ∧ fmt_6f ncy = "0.500000"
       ∧ label_line 0 ncx ncy nw nh
         = "0 " +:+ fmt_6f (binary64 (center_x # 400))
           +:+ " 0.500000 0.300000 0.600000" +:+ newline).
Proof.
  intros Hrun center_x center_y near.
  destruct (generate_single_sample_ok_files _ _ _ _ _ _ _ _ _ Hrun)
    as (_ & Hw & Hh & img & _ & _ & Hlbl).
  exists (binary64 (center_x # Z.to_pos w)), (binary64 (center_y # Z.to_pos h)),
    (binary64 (2 * r # Z.to_pos w)), (binary64 (2 * r # Z.to_pos h)).
  split; [exact Hlbl|]. split; [reflexivity|].
  do 4 (split; [reflexivity|]).
  do 4 (split; [by apply binary64_truediv_near|]).
  intros -> -> ->. subst center_y.
  assert (binary64 (200 `div` 2 # Z.to_pos 200) = (4503599627370496 # 9007199254740992))
    as Hcy by (vm_compute; reflexivity).
  assert (binary64 (2 * 60 # Z.to_pos 400) = binary64 (3 # 10)) as Hnw
    by (vm_compute; reflexivity).
  assert (binary64 (2 * 60 # Z.to_pos 200) = binary64 (6 # 10)) as Hnh
    by (vm_compute; reflexivity).
  assert (fmt_6f (binary64 (3 # 10)) = "0.300000") as Hfw by (vm_compute; reflexivity).
  assert (fmt_6f (binary64 (6 # 10)) = "0.600000") as Hfh by (vm_compute; reflexivity).
  assert (fmt_6f (4503599627370496 # 9007199254740992) = "0.500000") as Hfy
    by (vm_compute; reflexivity).
  rewrite Hcy, Hnw, Hnh.
  split; [reflexivity|]. split; [reflexivity|]. split; [reflexivity|].
  split; [reflexivity|]. split; [exact Hfw|]. split; [exact Hfh|]. split; [exact Hfy|].
  unfold label_line. rewrite Hfw, Hfh, Hfy.
  change (fmt_d 0) with "0". change (Z.to_pos 400) with 400%positive.
  reflexivity.
Qed.

Lemma label_geometry_witness :
  ∃ st',
    generate_single_sample 0 10 3 1 "images" "labels" demo_world = (Ok true, st')
    ∧ drawn_center_x 10 1 demo_rng = 6
    ∧ fs_files (w_fs st') !! label_filepath "labels" 0
      = Some (TextFile ("0 0.600000 0.333333 0.200000 0.666667" +:+ newline))
    ∧ ∃ ncx ncy nw nh : Q,
        fs_files (w_fs st') !! label_filepath "labels" 0
        = Some (TextFile (label_line 0 ncx ncy nw nh))
        ∧ ncx = binary64 (6 # 10) ∧ ncy = binary64 (1 # 3)
        ∧ nw = binary64 (2 # 10) ∧ nh = binary64 (2 # 3).
Proof.
  destruct (generate_single_sample 0 10 3 1 "images" "labels" demo_world)
    as [[b|e] st'] eqn:Hrun; [|vm_compute in Hrun; discriminate].
  assert (b = true) as -> by (vm_compute in Hrun; congruence).
  exists st'. split; [reflexivity|]. split; [reflexivity|].
  split; [vm_compute in Hrun; injection Hrun as <-; reflexivity|].
  destruct (label_geometry 0 10 3 1 "images" "labels" demo_world true st' Hrun)
    as (ncx & ncy & nw & nh & H1 & _ & H2 & H3 & H4 & H5 & _).
  exists ncx, ncy, nw, nh.
  split; [exact H1|]. split; [exact H2|]. split; [exact H3|].
  split; [exact H4|exact H5].
Defined.

(** C4. The label file of a sample holds exactly one line, ended by the
    only newline of the file: five fields separated by single spaces,
    the class id [0] and four numbers printed with six decimals. *)
Theorem label_file_format i w h r idir ldir st b st' :
  generate_single_sample i w h r idir ldir st = (Ok b, st') →
  ∃ f1 f2 f3 f4 : string,
    fs_files (w_fs st') !! label_filepath ldir i
    = Some (TextFile ("0" +:+ " " +:+ f1 +:+ " " +:+ f2 +:+ " " +:+ f3
                      +:+ " " +:+ f4 +:+ newline))
    ∧ is_fixed6 f1 = true ∧ is_fixed6 f2 = true
    ∧ is_fixed6 f3 = true ∧ is_fixed6 f4 = true
    ∧ well_formed_label ("0" +:+ " " +:+ f1 +:+ " " +:+ f2 +:+ " " +:+ f3
                         +:+ " " +:+ f4 +:+ newline) = true.
Proof.
  intros Hrun.
  destruct (generate_single_sample_ok_files _ _ _ _ _ _ _ _ _ Hrun)
    as (_ & _ & _ & img & _ & _ & Hlbl).
  unfold sample_label in Hlbl.
  eexists _, _, _, _. split; [exact Hlbl|].
  repeat (split; [apply fmt_6f_fixed6|]).
  apply label_line_well_formed.
Qed.

Lemma label_file_format_witness :
  ∃ st',
    generate_single_sample 7 4 2 1 "images" "labels" demo_world = (Ok true, st')
    ∧ fs_files (w_fs st') !! "labels/image_00007.txt"
      = Some (TextFile ("0 0.750000 0.500000 0.500000 1.000000" +:+ newline))
    ∧ ∃ f1 f2 f3 f4 : string,
        fs_files (w_fs st') !! label_filepath "labels" 7
        = Some (TextFile ("0" +:+ " " +:+ f1 +:+ " " +:+ f2 +:+ " " +:+ f3
                          +:+ " " +:+ f4 +:+ newline))
        ∧ is_fixed6 f1 = true ∧ is_fixed6 f2 = true
        ∧ is_fixed6 f3 = true ∧ is_fixed6 f4 = true
        ∧ well_formed_label ("0" +:+ " " +:+ f1 +:+ " " +:+ f2 +:+ " " +:+ f3
                             +:+ " " +:+ f4 +:+ newline) = true.
Proof.
  destruct (generate_single_sample 7 4 2 1 "images" "labels" demo_world)
    as [[b|e] st'] eqn:Hrun; [|vm_compute in Hrun; discriminate].
  assert (b = true) as -> by (vm_compute in Hrun; congruence).
  exists st'. split; [reflexivity|]. split.
  - vm_compute in Hrun. injection Hrun as <-. reflexivity.
  - exact (label_file_format 7 4 2 1 "images" "labels" demo_world true st' Hrun).
Defined.
(** C5. For every generated sample with positive dimensions and a radius
    within bounds ([0 <= radius] and [2 radius < min(width, height)]):
    the drawn centre abscissa lies in [[radius, width - radius]] (that
    is [[60, 340]] for radius 60 and width 400), every pixel of the
    saved image lies in [[0, 255]] and the four fields of the label,
    which are the doubles of the four quotients, lie in [[0, 1]]. *)
Theorem sample_invariants i w h r idir ldir st b st' :
  0 < w → 0 < h → 0 ≤ r → 2 * r < Z.min w h →
  generate_single_sample i w h r idir ldir st = (Ok b, st') →
  let center_x := drawn_center_x w r (w_rng st) in
  r ≤ center_x ≤ w - r
  ∧ (r = 60 → w = 400 → 60 ≤ center_x ≤ 340)
  ∧ ∃ img (ncx ncy nw nh : Q),
      fs_files (w_fs st') !! img_filepath idir i = Some (PngFile img)
      ∧ static_spec w h r center_x (h / 2) (drawn_shift (w_rng st))
          (rng_skip 2 (w_rng st)) img
      ∧ im_width img = w ∧ im_height img = h
      ∧ (∀ x y, 0 ≤ x < w → 0 ≤ y < h → 0 ≤ getpixel img x y ≤ 255)
      ∧ fs_files (w_fs st') !! label_filepath ldir i
        = Some (TextFile (label_line 0 ncx ncy nw nh))
      ∧ ncx = binary64 (center_x # Z.to_pos w)
      ∧ ncy = binary64 (h / 2 # Z.to_pos h)
      ∧ nw = binary64 (2 * r # Z.to_pos w)
      ∧ nh = binary64 (2 * r # Z.to_pos h)
      ∧ (0 <= ncx <= 1)%Q ∧ (0 <= ncy <= 1)%Q
      ∧ (0 <= nw <= 1)%Q ∧ (0 <= nh <= 1)%Q.
Proof.
  intros Hw Hh Hr Hmin Hrun center_x.
  destruct (generate_single_sample_ok_files _ _ _ _ _ _ _ _ _ Hrun)
    as (Hcx & _ & _ & img & Hspec & Himg & Hlbl).
  fold center_x in Hcx, Hspec, Hlbl.
  split; [exact Hcx|]. split; [intros -> ->; lia|].
  exists img, (binary64 (center_x # Z.to_pos w)), (binary64 (h / 2 # Z.to_pos h)),
    (binary64 (2 * r # Z.to_pos w)), (binary64 (2 * r # Z.to_pos h)).
  split; [exact Himg|]. split; [exact Hspec|].
  split; [exact (proj1 Hspec)|]. split; [exact (proj1 (proj2 Hspec))|]. split.
  { intros x y Hx Hy.
    rewrite (static_spec_getpixel _ _ _ _ _ _ _ _ _ _ Hspec Hx Hy).
    apply pixel_value_byte, base_draw_range. }
  split; [exact Hlbl|].
  do 4 (split; [reflexivity|]).
  pose proof (Z.div_pos h 2 ltac:(lia) ltac:(lia)).
  pose proof (Z.div_le_upper_bound h 2 h ltac:(lia) ltac:(lia)).
  split; [apply binary64_unit_interval; lia|].
  split; [apply binary64_unit_interval; lia|].
  split; apply binary64_unit_interval; lia.
Qed.

Lemma sample_invariants_witness :
  0 < 10 ∧ 0 < 7 ∧ 0 ≤ 2 ∧ 2 * 2 < Z.min 10 7
  ∧ ∃ st',
      generate_single_sample 0 10 7 2 "images" "labels" demo_world = (Ok true, st')
      ∧ 2 ≤ drawn_center_x 10 2 demo_rng ≤ 10 - 2
      ∧ fs_files (w_fs st') !! label_filepath "labels" 0
        = Some (TextFile ("0 0.700000 0.428571 0.400000 0.571429" +:+ newline))
      ∧ ∃ img, fs_files (w_fs st') !! img_filepath "images" 0 = Some (PngFile img)
          ∧ ∀ x y, 0 ≤ x < 10 → 0 ≤ y < 7 → 0 ≤ getpixel img x y ≤ 255.
Proof.
  repeat (split; [lia|]).
  destruct (generate_single_sample 0 10 7 2 "images" "labels" demo_world)
    as [[b|e] st'] eqn:Hrun; [|vm_compute in Hrun; discriminate].
  assert (b = true) as -> by (vm_compute in Hrun; congruence).
  exists st'. split; [reflexivity|].
  destruct (sample_invariants 0 10 7 2 "images" "labels" demo_world true st')
    as (Hcx & _ & img & ncx & ncy & nw & nh & Himg & _ & _ & _ & Hpx & _);
    [lia | lia | lia | lia | exact Hrun |].
  split; [exact Hcx|].
  split; [vm_compute in Hrun; injection Hrun as <-; reflexivity|].
  exists img. split; [exact Himg | exact Hpx].
Defined.

(** C6. The brightness shift of a sample is [20 + randint(-4, 3)]: it
    lies in the band [[20 - 4, 20 + 3]], that is [[16, 23]], and is
    strictly positive; it is the shift the saved image is painted
    with. *)
Theorem brightness_shift_band i w h r idir ldir st b st' :
  generate_single_sample i w h r idir ldir st = (Ok b, st') →
  let shift := drawn_shift (w_rng st) in
  20 - 4 ≤ shift ≤ 20 + 3 ∧ 16 ≤ shift ≤ 23 ∧ 0 < shift
  ∧ ∃ img,
      fs_files (w_fs st') !! img_filepath idir i = Some (PngFile img)
      ∧ static_spec w h r (drawn_center_x w r (w_rng st)) (h / 2) shift
          (rng_skip 2 (w_rng st)) img.
Proof.
  intros Hrun shift.
  destruct (generate_single_sample_ok_files _ _ _ _ _ _ _ _ _ Hrun)
    as (_ & _ & _ & img & Hspec & Himg & _).
  pose proof (drawn_shift_range (w_rng st)). fold shift in H.
  repeat (split; [lia|]). by exists img.
Qed.

Lemma brightness_shift_band_witness :
  ∃ st',
    generate_single_sample 0 4 2 1 "images" "labels" demo_world = (Ok true, st')
    ∧ drawn_shift demo_rng = 18
    ∧ 16 ≤ drawn_shift demo_rng ≤ 23 ∧ 0 < drawn_shift demo_rng.
Proof.
  destruct (generate_single_sample 0 4 2 1 "images" "labels" demo_world)
    as [[b|e] st'] eqn:Hrun; [|vm_compute in Hrun; discriminate].
  assert (b = true) as -> by (vm_compute in Hrun; congruence).
  exists st'. split; [reflexivity|]. split; [reflexivity|].
  destruct (brightness_shift_band 0 4 2 1 "images" "labels" demo_world true st' Hrun)
    as (_ & Hband & Hpos & _).
  split; [exact Hband | exact Hpos].
Defined.

(** Every shift of the band is drawn by some generator: the band is
    exactly [[16, 23]], one more value below 20 than above. *)
Lemma brightness_shift_band_attained (s : Z) :
  16 ≤ s ≤ 23 → ∃ g, drawn_shift g = s.
Proof.
  intros Hs. exists (MkRng (λ _, s - 16) 0).
  unfold drawn_shift, draw, rng_peek. simpl.
  rewrite Z.mod_small by lia. lia.
Qed.

(** C9. In a generated sample the base value lies in [[0, 150]] and the
    shift in [[16, 23]], so their sum lies in [[16, 173]] and the clamp
    to [[0, 255]] changes nothing: a pixel within the circle is
    [base + shift] and lies in [[16, 173]], a pixel outside is the base
    value and lies in [[0, 150]]. *)
Theorem clamp_never_active i w h r idir ldir st b st' :
  generate_single_sample i w h r idir ldir st = (Ok b, st') →
  let cx := drawn_center_x w r (w_rng st) in
  let shift := drawn_shift (w_rng st) in
  ∃ img,
    fs_files (w_fs st') !! img_filepath idir i = Some (PngFile img)
    ∧ ∀ x y, 0 ≤ x < w → 0 ≤ y < h →
        ∃ base,
          base = draw 0 max_background_grey (rng_skip 2 (w_rng st))
                   (Z.to_nat (y * w + x))
          ∧ 0 ≤ base ≤ 150 ∧ 16 ≤ shift ≤ 23 ∧ 16 ≤ base + shift ≤ 173
          ∧ clamp_byte (base + shift) = base + shift
          ∧ (inside_circle x y cx (h / 2) r = true →
             getpixel img x y = base + shift ∧ 16 ≤ getpixel img x y ≤ 173)
          ∧ (inside_circle x y cx (h / 2) r = false →
             getpixel img x y = base ∧ 0 ≤ getpixel img x y ≤ 150).
Proof.
  intros Hrun cx shift.
  destruct (generate_single_sample_ok_files _ _ _ _ _ _ _ _ _ Hrun)
    as (_ & _ & _ & img & Hspec & Himg & _).
  exists img. split; [exact Himg|]. intros x y Hx Hy.
  eexists. split; [reflexivity|].
  pose proof (base_draw_range (rng_skip 2 (w_rng st)) (Z.to_nat (y * w + x))) as Hb.
  pose proof (drawn_shift_range (w_rng st)) as Hs. fold shift in Hs.
  rewrite (static_spec_getpixel _ _ _ _ _ _ _ _ _ _ Hspec Hx Hy).
  fold cx shift. unfold pixel_value, clamp_byte.
  repeat (split; [lia|]).
  split; intros ->; lia.
Qed.

Lemma clamp_never_active_witness :
  ∃ st' img,
    generate_single_sample 0 4 2 1 "images" "labels" demo_world = (Ok true, st')
    ∧ fs_files (w_fs st') !! img_filepath "images" 0 = Some (PngFile img)
    ∧ inside_circle 2 1 (drawn_center_x 4 1 demo_rng) (2 / 2) 1 = true
    ∧ getpixel img 2 1 = 150 + 18
    ∧ inside_circle 0 0 (drawn_center_x 4 1 demo_rng) (2 / 2) 1 = false
    ∧ getpixel img 0 0 = 79.
Proof.
  destruct (generate_single_sample 0 4 2 1 "images" "labels" demo_world)
    as [[b|e] st'] eqn:Hrun; [|vm_compute in Hrun; discriminate].
  assert (b = true) as -> by (vm_compute in Hrun; congruence).
  destruct (clamp_never_active 0 4 2 1 "images" "labels" demo_world true st' Hrun)
    as (img & Himg & Hpx).
  exists st', img. split; [reflexivity|]. split; [exact Himg|].
  split; [reflexivity|].
  destruct (Hpx 2 1) as (b1 & -> & _ & _ & _ & _ & Hin & _); [lia..|].
  split; [exact (proj1 (Hin eq_refl))|].
  split; [reflexivity|].
  destruct (Hpx 0 0) as (b0 & -> & _ & _ & _ & _ & _ & Hout); [lia..|].
  exact (proj1 (Hout eq_refl)).
Defined.

(** C10. The two writes of a sample are not atomic: the image is saved
    before the label is written, so when the write of the label fails
    the call fails and the image of that index is already on disk,
    without its label.  The label path is as it was when the label file
    could not be opened; when the write broke off after [open] had
    created or emptied the file, it holds what the broken write left
    (an empty file on a full disk).  No other path is touched. *)
Theorem sample_not_atomic i w h r idir ldir st flt :
  r ≤ w - r → 0 < w → 0 < h →
  (∀ c, fs_fault (w_fs st) (img_filepath idir i) c = None) →
  (∀ c, fs_fault (w_fs st) (label_filepath ldir i) c = Some flt) →
  ∃ img st',
    generate_single_sample i w h r idir ldir st
    = (Raise (OSError (fault_message flt)), st')
    ∧ static_spec w h r (drawn_center_x w r (w_rng st)) (h / 2)
        (drawn_shift (w_rng st)) (rng_skip 2 (w_rng st)) img
    ∧ fs_files (w_fs st') !! img_filepath idir i = Some (PngFile img)
    ∧ fs_files (w_fs st') !! label_filepath ldir i
      = match flt with
        | Refused _ => fs_files (w_fs st) !! label_filepath ldir i
        | Broken _ remains => Some remains
        end
    ∧ ∀ p, p ≠ img_filepath idir i → p ≠ label_filepath ldir i →
        fs_files (w_fs st') !! p = fs_files (w_fs st) !! p.
Proof.
  intros Hr Hw Hh Himg Hlbl.
  destruct (generate_single_sample_label_fault i w h r idir ldir st flt Hr Hw Hh Himg Hlbl)
    as (img & Hspec & Hrun).
  eexists img, _. split; [exact Hrun|]. split; [exact Hspec|].
  pose proof (img_label_path_ne idir ldir i i) as Hne.
  destruct flt as [msg|msg remains]; unfold world_write; cbn [w_fs fs_files world_skip].
  - split; [by rewrite lookup_insert_eq|]. split.
    + by rewrite lookup_insert_ne.
    + intros p Hp _. by rewrite lookup_insert_ne.
  - split.
    { rewrite lookup_insert_ne by (intros Heq; by apply Hne). by rewrite lookup_insert_eq. }
    split; [by rewrite lookup_insert_eq|].
    intros p Hp1 Hp2. by rewrite !lookup_insert_ne.
Qed.

Lemma sample_not_atomic_witness :
  ∃ img st',
    generate_single_sample 3 4 2 1 "images" "labels"
      (MkWorld demo_rng (label_fault_fs "labels" 3))
    = (Raise (OSError "[Errno 28] No space left on device"), st')
    ∧ fs_files (label_fault_fs "labels" 3) !! img_filepath "images" 3 = None
    ∧ fs_files (w_fs st') !! img_filepath "images" 3 = Some (PngFile img)
    ∧ fs_files (label_fault_fs "labels" 3) !! label_filepath "labels" 3 = None
    ∧ fs_files (w_fs st') !! label_filepath "labels" 3 = Some (TextFile "").
Proof.
  destruct (sample_not_atomic 3 4 2 1 "images" "labels"
              (MkWorld demo_rng (label_fault_fs "labels" 3))
              (Broken "[Errno 28] No space left on device" (TextFile "")))
    as (img & st' & Hrun & _ & Himg & Hlbl & _);
    [lia | lia | lia | reflexivity | reflexivity |].
  exists img, st'. split; [exact Hrun|]. split; [reflexivity|].
  split; [exact Himg|]. split; [reflexivity|exact Hlbl].
Defined.

(** The same with a label file that cannot be opened (its directory is
    missing): the image is on disk and there is no label file at all. *)
Example sample_without_label :
  let fs := MkFs ∅ ∅
              (λ path _,
                 if String.eqb path (label_filepath "labels" 3)
                 then Some (Refused "[Errno 2] No such file or directory: 'labels/image_00003.txt'")
                 else None) in
  let run := generate_single_sample 3 4 2 1 "images" "labels" (MkWorld demo_rng fs) in
  run.1 = Raise (OSError "[Errno 2] No such file or directory: 'labels/image_00003.txt'")
  ∧ is_Some (fs_files (w_fs run.2) !! "images/image_00003.png")
  ∧ fs_files (w_fs run.2) !! "labels/image_00003.txt" = None.
Proof. vm_compute. split; [reflexivity|]. split; [by eexists|reflexivity]. Qed.

(** ** Jobs and the pool *)

Lemma fs_extends_refl fs : fs_extends fs fs.
Proof. by split. Qed.

Lemma fs_extends_trans fs1 fs2 fs3 :
  fs_extends fs1 fs2 → fs_extends fs2 fs3 → fs_extends fs1 fs3.
Proof.
  intros [Hf1 Hp1] [Hf2 Hp2]. split; [congruence|].
  intros p Hp. by apply Hp2, Hp1.
Qed.

Lemma fs_extends_write path content st :
  fs_extends (w_fs st) (w_fs (world_write path content st)).
Proof.
  split; [done|]. intros p Hp. unfold world_write. cbn [w_fs fs_files].
  destruct (decide (path = p)) as [->|Hne].
  - rewrite lookup_insert_eq. by eexists.
  - by rewrite lookup_insert_ne.
Qed.

Lemma fs_extends_leave path remains st :
  fs_extends (w_fs st) (w_fs (world_leave path remains st)).
Proof.
  unfold world_leave. case_bool_decide; [apply fs_extends_write|apply fs_extends_refl].
Qed.

Lemma job_refused_extends fs fs' idir ldir k msg :
  fs_extends fs fs' → job_refused fs idir ldir k msg → job_refused fs' idir ldir k msg.
Proof. intros [Hf _]. unfold job_refused. by rewrite Hf. Qed.

Lemma job_unhindered_extends fs fs' idir ldir i :
  fs_extends fs fs' → job_unhindered fs idir ldir i → job_unhindered fs' idir ldir i.
Proof. intros [Hf _]. unfold job_unhindered. by rewrite Hf. Qed.

Lemma run_job_unhindered job_rng a i fs :
  ja_radius a ≤ ja_width a - ja_radius a → 0 < ja_width a → 0 < ja_height a →
  job_unhindered fs (ja_images_dir a) (ja_labels_dir a) i →
  ∃ fs',
    run_job job_rng a i fs = (MkFuture i (Ok true), fs')
    ∧ fs_extends fs fs'
    ∧ is_Some (fs_files fs' !! img_filepath (ja_images_dir a) i)
    ∧ is_Some (fs_files fs' !! label_filepath (ja_labels_dir a) i).
Proof.
  intros Hr Hw Hh [Himg Hlbl]. unfold run_job.
  destruct (generate_single_sample_unhindered i (ja_width a) (ja_height a) (ja_radius a)
              (ja_images_dir a) (ja_labels_dir a) (MkWorld (job_rng i) fs) Hr Hw Hh
              Himg Hlbl)
    as (img & _ & Hrun).
  rewrite Hrun.
  eexists. split; [reflexivity|]. split; [|split].
  - eapply fs_extends_trans; [|apply fs_extends_write].
    apply (fs_extends_write _ _ (world_skip _ (MkWorld (job_rng i) fs))).
  - unfold world_write. cbn [w_fs fs_files].
    rewrite lookup_insert_ne by (intros Heq; by eapply img_label_path_ne).
    rewrite lookup_insert_eq. by eexists.
  - unfold world_write. cbn [w_fs fs_files]. rewrite lookup_insert_eq. by eexists.
Qed.

Lemma run_job_refused job_rng a k msg fs :
  ja_radius a ≤ ja_width a - ja_radius a → 0 < ja_width a → 0 < ja_height a →
  job_refused fs (ja_images_dir a) (ja_labels_dir a) k msg →
  ∃ fs',
    run_job job_rng a k fs = (MkFuture k (Raise (OSError msg)), fs')
    ∧ fs_extends fs fs'.
Proof.
  intros Hr Hw Hh Href. unfold run_job.
  destruct (generate_single_sample_run k (ja_width a) (ja_height a) (ja_radius a)
              (ja_images_dir a) (ja_labels_dir a) (MkWorld (job_rng k) fs) Hr)
    as (img & _ & Hrun); [lia..|].
  cbn [w_fs] in Hrun.
  destruct (Z.eqb_spec (ja_width a) 0); [lia|].
  destruct (Z.eqb_spec (ja_height a) 0); [lia|].
  cbn [orb] in Hrun. rewrite Hrun. clear Hrun.
  destruct Href as [Himg|[Himg Hlbl]].
  - specialize (Himg (PngFile img)).
    destruct (fs_fault fs (img_filepath (ja_images_dir a) k) (PngFile img))
      as [[m|m remains]|]; [| |discriminate]; injection Himg as ->.
    + eexists. split; [reflexivity|]. apply fs_extends_refl.
    + eexists. split; [reflexivity|].
      apply (fs_extends_leave _ _ (world_skip _ (MkWorld (job_rng k) fs))).
  - rewrite Himg.
    match goal with
    | |- context [fs_fault fs (label_filepath ?d k) ?c] =>
        specialize (Hlbl c); destruct (fs_fault fs (label_filepath d k) c)
          as [[m|m remains]|]; [| |discriminate]; injection Hlbl as ->
    end.
    + eexists. split; [reflexivity|].
      apply (fs_extends_write _ _ (world_skip _ (MkWorld (job_rng k) fs))).
    + eexists. split; [reflexivity|].
      eapply fs_extends_trans; [|apply fs_extends_write].
      apply (fs_extends_write _ _ (world_skip _ (MkWorld (job_rng k) fs))).
Qed.

Lemma run_pool_isolated job_rng a k msg (order : list Z) :
  ja_radius a ≤ ja_width a - ja_radius a → 0 < ja_width a → 0 < ja_height a →
  ∀ fs,
    job_refused fs (ja_images_dir a) (ja_labels_dir a) k msg →
    (∀ i, i ∈ order → i ≠ k →
       job_unhindered fs (ja_images_dir a) (ja_labels_dir a) i) →
    ∃ fs',
      run_pool job_rng a order fs = (isolated_outcome k msg <$> order, fs')
      ∧ fs_extends fs fs'
      ∧ ∀ i, i ∈ order → i ≠ k →
          is_Some (fs_files fs' !! img_filepath (ja_images_dir a) i)
          ∧ is_Some (fs_files fs' !! label_filepath (ja_labels_dir a) i).
Proof.
  intros Hr Hw Hh. induction order as [|j order IH]; intros fs Hk Hothers.
  - exists fs. split; [done|]. split; [apply fs_extends_refl|].
    intros i Hi. by apply elem_of_nil in Hi.
  - assert (∃ fs1, run_job job_rng a j fs = (isolated_outcome k msg j, fs1)
                   ∧ fs_extends fs fs1
                   ∧ (j ≠ k →
                      is_Some (fs_files fs1 !! img_filepath (ja_images_dir a) j)
                      ∧ is_Some (fs_files fs1 !! label_filepath (ja_labels_dir a) j)))
      as (fs1 & Hjob & Hext1 & Hfiles1).
    { unfold isolated_outcome. destruct (decide (j = k)) as [->|Hne].
      - destruct (run_job_refused job_rng a k msg fs Hr Hw Hh Hk) as (fs1 & Hj & He).
        exists fs1. split; [exact Hj|]. split; [exact He|]. intros Hkk. by destruct Hkk.
      - destruct (run_job_unhindered job_rng a j fs Hr Hw Hh) as (fs1 & Hj & He & H1 & H2).
        { apply Hothers; [left|done]. }
        exists fs1. split; [exact Hj|]. split; [exact He|]. intros _. by split. }
    destruct (IH fs1) as (fs' & Hpool & Hext & Hfiles).
    { by eapply job_refused_extends. }
    { intros i Hi Hne. eapply job_unhindered_extends; [done|].
      apply Hothers; [by right|done]. }
    exists fs'. split; [|split].
    + cbn [run_pool]. rewrite Hjob, Hpool. reflexivity.
    + by eapply fs_extends_trans.
    + intros i Hi Hne. apply elem_of_cons in Hi as [->|Hi]; [|by apply Hfiles].
      destruct (Hfiles1 Hne) as [H1 H2]. destruct Hext as [_ Hkeep].
      split; by apply Hkeep.
Qed.

(** ** Tallies *)

Lemma count_futures_perm p (l l' : list future) :
  l ≡ₚ l' → count_futures p l = count_futures p l'.
Proof. induction 1; simpl; lia. Qed.

Lemma count_futures_split (l : list future) :
  (count_futures is_success l + count_futures is_failure l)%nat = length l.
Proof.
  induction l as [|f l IH]; [done|]. simpl. unfold is_failure at 1.
  destruct (is_success f); simpl; lia.
Qed.

Lemma count_failures_isolated k msg (l : list Z) :
  NoDup l →
  count_futures is_failure (isolated_outcome k msg <$> l)
  = if decide (k ∈ l) then 1%nat else 0%nat.
Proof.
  induction l as [|j l IH]; intros Hnd; [reflexivity|].
  apply list.NoDup_cons in Hnd as [Hj Hnd]. rewrite fmap_cons. cbn [count_futures].
  rewrite (IH Hnd). unfold is_failure, is_success, isolated_outcome. cbn [fut_result].
  destruct (decide (j = k)) as [->|Hne], (decide (k ∈ l)) as [Hin|Hnin];
    cbn [negb]; case_decide as Hin'; try reflexivity; exfalso.
  all: first
    [ by apply Hj
    | apply Hin'; left
    | apply Hin'; by right
    | apply elem_of_cons in Hin' as [?|?]; [congruence|by apply Hnin] ].
Qed.

Lemma count_lines_app line (a b : list string) :
  count_lines line (a ++ b) = (count_lines line a + count_lines line b)%nat.
Proof. induction a as [|l a IH]; simpl; [done|]. rewrite IH. lia. Qed.

Lemma progress_line_not_exception c N name e :
  String.eqb (progress_line c N name) (exception_line e) = false.
Proof. reflexivity. Qed.

Lemma count_exception_lines N name k msg (order : list Z) : ∀ i,
  count_lines (exception_line (OSError msg))
    (collect N name i (isolated_outcome k msg <$> order))
  = count_futures is_failure (isolated_outcome k msg <$> order).
Proof.
  induction order as [|j order IH]; intros i; [done|].
  rewrite fmap_cons. cbn [collect count_futures]. rewrite count_lines_app, IH.
  f_equal. unfold collect_one, is_failure, is_success, isolated_outcome.
  cbn [fut_result]. destruct (decide (j = k)); cbn [negb count_lines].
  - rewrite String.eqb_refl. reflexivity.
  - destruct ((i + 1) `mod` progress_step N =? 0); cbn [count_lines];
      [rewrite progress_line_not_exception|]; reflexivity.
Qed.

Lemma valid_completion_length N completion :
  valid_completion N completion → length completion = Z.to_nat N.
Proof.
  intros Hperm. rewrite (Permutation_length Hperm). unfold range. apply length_seqZ.
Qed.

Lemma valid_completion_elem N completion i :
  valid_completion N completion → i ∈ completion ↔ 0 ≤ i < N.
Proof.
  intros Hperm. rewrite Hperm. unfold range. rewrite elem_of_seqZ. lia.
Qed.

(** ** Properties of the collection loop *)

(** C7, as the code has it.  When one job [k] of a split of [N] jobs is
    refused a write, the collector prints one line for it, made of a
    fixed text and the error message only (the job index is not
    printed), cancels nothing and goes on: all [N] results are
    observed, [N - 1] of them successes and one a failure, and the
    image and the label of every other index exist afterwards. *)
Theorem failure_isolation job_rng base name w h r N k msg completion fs :
  0 < w → 0 < h → r ≤ w - r → 0 ≤ k < N →
  valid_completion N completion →
  let images_dir := os_path_join (os_path_join base name) "images" in
  let labels_dir := os_path_join (os_path_join base name) "labels" in
  job_refused fs images_dir labels_dir k msg →
  (∀ i, 0 ≤ i < N → i ≠ k → job_unhindered fs images_dir labels_dir i) →
  let run := generate_split job_rng base name w h r N completion fs in
  sr_futures run = isolated_outcome k msg <$> completion
  ∧ length (sr_futures run) = Z.to_nat N
  ∧ count_futures is_success (sr_futures run) = (Z.to_nat N - 1)%nat
  ∧ count_futures is_failure (sr_futures run) = 1%nat
  ∧ count_lines (exception_line (OSError msg)) (sr_stdout run) = 1%nat
  ∧ exception_line (OSError msg) = "Generated sample threw an exception: " +:+ msg
  ∧ ∀ i, 0 ≤ i < N → i ≠ k →
      is_Some (fs_files (sr_fs run) !! img_filepath images_dir i)
      ∧ is_Some (fs_files (sr_fs run) !! label_filepath labels_dir i).
Proof.
  intros Hw Hh Hr Hk Hperm images_dir labels_dir Href Hothers run.
  set (a := MkJobArgs w h r images_dir labels_dir).
  set (fs0 := makedirs labels_dir (makedirs images_dir fs)).
  destruct (run_pool_isolated job_rng a k msg completion Hr Hw Hh fs0)
    as (fs' & Hpool & Hext & Hfiles).
  { exact Href. }
  { intros i Hi Hne. apply Hothers; [|done].
    by apply (valid_completion_elem N completion). }
  assert (run = MkSplitRun (isolated_outcome k msg <$> completion)
                  (["Created directories for '" +:+ name +:+ "': " +:+ images_dir
                      +:+ " and " +:+ labels_dir;
                    "Generating " +:+ fmt_d N +:+ " samples for '" +:+ name
                      +:+ "' split..."]
                   ++ collect N name 0 (isolated_outcome k msg <$> completion)) fs')
    as Hrun.
  { unfold run, generate_split. fold images_dir labels_dir a fs0. by rewrite Hpool. }
  rewrite Hrun. cbn [sr_futures sr_stdout sr_fs].
  assert (count_futures is_failure (isolated_outcome k msg <$> completion) = 1%nat)
    as Hfail.
  { rewrite (count_futures_perm _ _ (isolated_outcome k msg <$> range N))
      by (by apply fmap_Permutation).
    rewrite count_failures_isolated by apply NoDup_seqZ.
    rewrite decide_True; [done|]. unfold range. apply elem_of_seqZ. lia. }
  assert (length (isolated_outcome k msg <$> completion) = Z.to_nat N) as Hlen
    by (rewrite length_fmap; by apply valid_completion_length).
  split; [done|]. split; [done|]. split.
  { pose proof (count_futures_split (isolated_outcome k msg <$> completion)). lia. }
  split; [done|]. split.
  { rewrite count_lines_app, count_exception_lines, Hfail. reflexivity. }
  split; [reflexivity|].
  intros i Hi Hne. apply Hfiles; [|done].
  by apply (valid_completion_elem N completion).
Qed.

Lemma failure_isolation_witness :
  let fs := label_fault_fs "data/train/labels" 1 in
  let run := generate_split (λ _, demo_rng) "data" "train" 4 2 1 3 [2; 0; 1] fs in
  valid_completion 3 [2; 0; 1]
  ∧ length (sr_futures run) = 3%nat
  ∧ count_futures is_success (sr_futures run) = 2%nat
  ∧ count_futures is_failure (sr_futures run) = 1%nat
  ∧ count_lines
      (exception_line (OSError "[Errno 28] No space left on device"))
      (sr_stdout run) = 1%nat
  ∧ is_Some (fs_files (sr_fs run) !! "data/train/images/image_00000.png")
  ∧ is_Some (fs_files (sr_fs run) !! "data/train/labels/image_00000.txt")
  ∧ is_Some (fs_files (sr_fs run) !! "data/train/images/image_00002.png")
  ∧ is_Some (fs_files (sr_fs run) !! "data/train/labels/image_00002.txt").
Proof.
  intros fs run.
  assert (valid_completion 3 [2; 0; 1]) as Hperm.
  { unfold valid_completion. change (range 3) with [0; 1; 2].
    etrans; [apply perm_swap|]. apply perm_skip, perm_swap. }
  split; [exact Hperm|].
  destruct (failure_isolation (λ _, demo_rng) "data" "train" 4 2 1 3 1
              "[Errno 28] No space left on device" [2; 0; 1] fs)
    as (_ & Hlen & Hok & Hfail & Hlines & _ & Hfiles).
  - lia.
  - lia.
  - lia.
  - lia.
  - exact Hperm.
  - right. split; intros c; reflexivity.
  - intros i Hi Hne.
    assert (i = 0 ∨ i = 2) as [-> | ->] by lia; split; intros c; reflexivity.
  - fold run in Hlen, Hok, Hfail, Hlines, Hfiles.
    repeat (split; [assumption|]).
    destruct (Hfiles 0 ltac:(lia) ltac:(lia)) as [H0i H0l].
    destruct (Hfiles 2 ltac:(lia) ltac:(lia)) as [H2i H2l].
    repeat split; assumption.
Defined.

(** C7 as the design document words it fails on the index: the line
    printed for a failed job does not tell which job failed.  Two runs
    of two jobs, one where job 0 is refused and one where job 1 is,
    print the same lines. *)
Lemma failure_log_has_no_index :
  let run0 := generate_split (λ _, demo_rng) "data" "train" 4 2 1 2 [0; 1]
                (label_fault_fs "data/train/labels" 0) in
  let run1 := generate_split (λ _, demo_rng) "data" "train" 4 2 1 2 [1; 0]
                (label_fault_fs "data/train/labels" 1) in
  fut_index <$> List.filter is_failure (sr_futures run0) = [0]
  ∧ fut_index <$> List.filter is_failure (sr_futures run1) = [1]
  ∧ sr_stdout run0 = sr_stdout run1
  ∧ sr_stdout run0
    = ["Created directories for 'train': data/train/images and data/train/labels";
       "Generating 2 samples for 'train' split...";
       "Generated sample threw an exception: [Errno 28] No space left on device";
       "  Generated 2/2 for train"].
Proof. vm_compute. done. Qed.

(** ** Progress lines *)

Lemma pretty_Z_no_char (n : Z) c :
  is_digit c = false → c ≠ "-"%char → occurs c (pretty n) = false.
Proof.
  intros Hc Hm.
  assert (∀ p : positive, occurs c (pretty (Npos p)) = false) as Hpos.
  { intros p. apply (string_forall_occurs is_digit); [done|].
    apply (pretty_N_digits (Npos p)). }
  destruct n as [|p|p]; [| apply Hpos |].
  - change (pretty 0) with (String "0" ""). rewrite occurs_cons. cbn [occurs].
    rewrite orb_false_r. apply Ascii.eqb_neq. intros <-. discriminate.
  - change (pretty (Z.neg p)) with (String "-" (pretty (Npos p))).
    rewrite occurs_cons, Hpos, orb_false_r. apply Ascii.eqb_neq. congruence.
Qed.

Lemma append_sep_inj sep (a a' s s' : string) :
  occurs sep a = false → occurs sep a' = false →
  a +:+ String sep s = a' +:+ String sep s' → a = a'.
Proof.
  revert a'. induction a as [|c a IH]; intros [|c' a'] Ha Ha' Heq.
  - done.
  - rewrite append_nil_l, append_cons in Heq. injection Heq as <- _.
    rewrite occurs_cons, Ascii.eqb_refl in Ha'. discriminate.
  - rewrite append_nil_l, append_cons in Heq. injection Heq as -> _.
    rewrite occurs_cons, Ascii.eqb_refl in Ha. discriminate.
  - rewrite !append_cons in Heq. injection Heq as -> Heq.
    rewrite occurs_cons in Ha, Ha'.
    apply orb_false_iff in Ha as [_ Ha]. apply orb_false_iff in Ha' as [_ Ha'].
    f_equal. by apply (IH a').
Qed.

Lemma progress_line_inj c c' N name :
  progress_line c N name = progress_line c' N name → c = c'.
Proof.
  unfold progress_line, fmt_d. intros Heq.
  apply (inj (String.append "  Generated ")) in Heq.
  change ("/" +:+ ?s) with (String "/" s) in Heq.
  apply append_sep_inj in Heq; [by apply (inj pretty)|by apply pretty_Z_no_char..].
Qed.

Lemma progress_line_ne_exception c N name e :
  progress_line c N name ≠ exception_line e.
Proof. intros Heq. discriminate Heq. Qed.

Lemma elem_of_collect N name (completed : list future) line : ∀ i,
  line ∈ collect N name i completed
  ↔ ∃ (j : nat) f, completed !! j = Some f
                   ∧ line ∈ collect_one N name (i + Z.of_nat j) f.
Proof.
  induction completed as [|f completed IH]; intros i.
  - simpl. split; [by intros ?%elem_of_nil|]. by intros (j & f & ? & _).
  - cbn [collect]. rewrite elem_of_app, IH. split.
    + intros [Hin|(j & f' & Hj & Hin)].
      * exists O, f. split; [done|]. by rewrite Z.add_0_r.
      * exists (S j), f'. split; [done|].
        by replace (i + Z.of_nat (S j)) with (i + 1 + Z.of_nat j) by lia.
    + intros ([|j] & f' & Hj & Hin).
      * left. simpl in Hj. injection Hj as <-. by rewrite Z.add_0_r in Hin.
      * right. exists j, f'. split; [done|].
        by replace (i + 1 + Z.of_nat j) with (i + Z.of_nat (S j)) by lia.
Qed.

Lemma collect_results_only N name (l l' : list future) : ∀ i,
  fut_result <$> l = fut_result <$> l' →
  collect N name i l = collect N name i l'.
Proof.
  revert l'. induction l as [|f l IH]; intros [|f' l'] i Heq; try done.
  rewrite !fmap_cons in Heq. injection Heq as Hf Heq.
  cbn [collect]. rewrite (IH l' (i + 1) Heq). f_equal.
  unfold collect_one. by rewrite Hf.
Qed.

Lemma progress_step_nonneg N : 0 ≤ N → progress_step N = Z.max 1 (N `div` 10).
Proof.
  intros HN. unfold progress_step.
  pose proof (Z.div_pos N 10 HN ltac:(lia)).
  destruct (Z.eqb_spec (N `div` 10) 0); lia.
Qed.

(** What the collection loop prints.  The counter numbers every result
    observed, successes and failures alike, in completion order and
    whatever the job indices; the step is [num_samples // 10 or 1].  A
    success observed at a count that is a multiple of the step prints
    the progress line of that count; a failure prints its exception
    line, whatever the count.  What is printed depends on the results
    only, not on the job indices. *)
Theorem progress_report_rule N name (completed : list future) :
  (∀ c, progress_line c N name ∈ collect N name 0 completed
        ↔ ∃ f b, 1 ≤ c ∧ completed !! Z.to_nat (c - 1) = Some f
                 ∧ fut_result f = Ok b ∧ c `mod` progress_step N = 0)
  ∧ (∀ (j : nat) f e, completed !! j = Some f → fut_result f = Raise e →
       exception_line e ∈ collect N name 0 completed
       ∧ progress_line (Z.of_nat j + 1) N name ∉ collect N name 0 completed)
  ∧ (∀ completed' : list future,
       fut_result <$> completed = fut_result <$> completed' →
       collect N name 0 completed = collect N name 0 completed')
  ∧ (0 ≤ N → progress_step N = Z.max 1 (N `div` 10)).
Proof.
  assert (∀ c, progress_line c N name ∈ collect N name 0 completed
               ↔ ∃ f b, 1 ≤ c ∧ completed !! Z.to_nat (c - 1) = Some f
                        ∧ fut_result f = Ok b ∧ c `mod` progress_step N = 0) as Hiff.
  { intros c. rewrite elem_of_collect. split.
    - intros (j & f & Hj & Hin). unfold collect_one in Hin.
      destruct (fut_result f) as [b|e] eqn:Hres.
      + destruct (Z.eqb_spec ((0 + Z.of_nat j + 1) `mod` progress_step N) 0)
          as [Hmod|_]; [|by apply elem_of_nil in Hin].
        apply list_elem_of_singleton, progress_line_inj in Hin. subst c.
        exists f, b. split; [lia|].
        replace (Z.to_nat (0 + Z.of_nat j + 1 - 1)) with j by lia. done.
      + apply list_elem_of_singleton in Hin. by apply progress_line_ne_exception in Hin.
    - intros (f & b & Hc & Hj & Hres & Hmod).
      exists (Z.to_nat (c - 1)), f. split; [done|].
      unfold collect_one. rewrite Hres.
      replace (0 + Z.of_nat (Z.to_nat (c - 1)) + 1) with c by lia.
      rewrite Hmod. simpl. by apply list_elem_of_singleton. }
  split; [exact Hiff|]. split; [|split].
  - intros j f e Hj Hres. split.
    + apply elem_of_collect. exists j, f. split; [done|].
      unfold collect_one. rewrite Hres. by apply list_elem_of_singleton.
    + intros (f' & b & _ & Hj' & Hres' & _)%Hiff.
      replace (Z.to_nat (Z.of_nat j + 1 - 1)) with j in Hj' by lia. congruence.
  - intros completed'. apply collect_results_only.
  - apply progress_step_nonneg.
Qed.

(** C8. The design document asks for a progress report at each 10%
    boundary of the count of results observed, successes and failures
    alike.  The code counts that way ([enumerate] numbers every
    result), but it prints the report in the [try] body after
    [future.result()], so a result that raises skips the report of its
    count.  In a split of ten jobs the step is [10 // 10 = 1] and every
    count is a boundary.  When the first result observed is a failure
    (here job 3, whose label write breaks off on a full disk), ten
    results are observed, one result of ten has been observed after the
    first, and no line reports 1/10: only the exception line is
    printed, then the reports 2/10 to 10/10.  The same split with no
    failure reports 1/10. *)
Theorem progress_skipped_on_failure :
  let order := [3; 0; 1; 2; 4; 5; 6; 7; 8; 9] in
  let run := generate_split (λ _, demo_rng) "data" "train" 4 2 1 10 order
               (label_fault_fs "data/train/labels" 3) in
  let sound := generate_split (λ _, demo_rng) "data" "train" 4 2 1 10 order demo_fs in
  length (sr_futures run) = 10%nat
  ∧ progress_step 10 = 1 ∧ 1 `mod` progress_step 10 = 0
  ∧ count_lines "  Generated 1/10 for train" (sr_stdout run) = 0%nat
  ∧ count_lines "  Generated 1/10 for train" (sr_stdout sound) = 1%nat
  ∧ sr_stdout run
    = ["Created directories for 'train': data/train/images and data/train/labels";
       "Generating 10 samples for 'train' split...";
       "Generated sample threw an exception: [Errno 28] No space left on device";
       "  Generated 2/10 for train"; "  Generated 3/10 for train";
       "  Generated 4/10 for train"; "  Generated 5/10 for train";
       "  Generated 6/10 for train"; "  Generated 7/10 for train";
       "  Generated 8/10 for train"; "  Generated 9/10 for train";
       "  Generated 10/10 for train"].
Proof. vm_compute. done. Qed.

(** ** File names *)

Lemma pretty_N_go_head (x : N) : ∀ s,
  (0 < x)%N → ∃ c rest, pretty_N_go x s = String c rest ∧ c ≠ "0"%char.
Proof.
  induction (N.lt_wf_0 x) as [x _ IH]; intros s Hx.
  rewrite pretty_N_go_step by done.
  destruct (decide (x `div` 10 = 0)%N) as [Hq|Hq].
  - rewrite Hq, pretty_N_go_0. eexists _, _. split; [reflexivity|].
    assert (x < 10)%N as Hlt.
    { pose proof (N.div_mod' x 10) as Hdm. rewrite Hq in Hdm.
      pose proof (N.mod_lt x 10 ltac:(done)). lia. }
    rewrite N.mod_small by done.
    assert (x = 1 ∨ x = 2 ∨ x = 3 ∨ x = 4 ∨ x = 5 ∨ x = 6 ∨ x = 7 ∨ x = 8 ∨ x = 9)%N
      as Hcases by lia.
    repeat (destruct Hcases as [->|Hcases]; [done|]). by subst x.
  - apply IH; [apply N.div_lt; lia|by apply N.neq_0_lt_0].
Qed.

Lemma pretty_N_go_length (k : nat) : ∀ (x : N) s,
  (x < 10 ^ N.of_nat k)%N →
  (String.length (pretty_N_go x s) ≤ k + String.length s)%nat.
Proof.
  induction k as [|k IH]; intros x s Hx.
  - assert (x = 0%N) as -> by (simpl in Hx; lia). rewrite pretty_N_go_0. lia.
  - destruct (decide (x = 0)%N) as [->|Hne]; [rewrite pretty_N_go_0; lia|].
    rewrite pretty_N_go_step by lia.
    etrans; [apply IH|simpl; lia].
    apply N.Div0.div_lt_upper_bound.
    replace (N.of_nat (S k)) with (N.succ (N.of_nat k)) in Hx by lia.
    rewrite N.pow_succ_r' in Hx. lia.
Qed.

Lemma pretty_N_go_length_ge (x : N) : ∀ s,
  (String.length s ≤ String.length (pretty_N_go x s))%nat.
Proof.
  induction (N.lt_wf_0 x) as [x _ IH]; intros s.
  destruct (decide (x = 0)%N) as [->|Hx]; [by rewrite pretty_N_go_0|].
  rewrite pretty_N_go_step by lia.
  etrans; [|apply IH; apply N.div_lt; lia]. simpl. lia.
Qed.

Lemma pretty_N_go_length_lower (k : nat) : ∀ (x : N) s,
  (10 ^ N.of_nat k ≤ x)%N →
  (k + 1 + String.length s ≤ String.length (pretty_N_go x s))%nat.
Proof.
  induction k as [|k IH]; intros x s Hx.
  - rewrite pretty_N_go_step by (simpl in Hx; lia).
    etrans; [|apply pretty_N_go_length_ge]. simpl. lia.
  - replace (N.of_nat (S k)) with (N.succ (N.of_nat k)) in Hx by lia.
    rewrite N.pow_succ_r' in Hx.
    assert (0 < 10 ^ N.of_nat k)%N by (apply N.neq_0_lt_0, N.pow_nonzero; lia).
    rewrite pretty_N_go_step by lia.
    etrans; [|apply IH]; [simpl; lia|].
    apply N.div_le_lower_bound; lia.
Qed.

(** A decimal numeral as [str] prints a natural number: the single
    digit 0, or digits that do not start with 0. *)
Lemma pretty_Z_canonical (n : Z) :
  0 ≤ n →
  string_forall is_digit (pretty n) = true
  ∧ (pretty n = "0" ∨ ∃ c rest, pretty n = String c rest ∧ c ≠ "0"%char).
Proof.
  intros Hn. split; [by apply pretty_Z_digits|].
  destruct n as [|p|p]; [by left| |lia]. right.
  change (pretty (Z.pos p)) with (pretty_N_go (N.pos p) "").
  apply pretty_N_go_head. lia.
Qed.

Lemma pretty_Z_length_upper (n : Z) (k : nat) :
  0 ≤ n < 10 ^ Z.of_nat k → (0 < k)%nat → (String.length (pretty n) ≤ k)%nat.
Proof.
  intros Hn Hk. destruct n as [|p|p]; [simpl; lia| |lia].
  change (pretty (Z.pos p)) with (pretty_N_go (N.pos p) "").
  etrans; [apply (pretty_N_go_length k)|simpl; lia].
  assert (Z.of_N (N.pos p) < Z.of_N (10 ^ N.of_nat k)); [|lia].
  rewrite N2Z.inj_pow, nat_N_Z. simpl. lia.
Qed.

Lemma pretty_Z_length_lower (n : Z) (k : nat) :
  10 ^ Z.of_nat k ≤ n → (k + 1 ≤ String.length (pretty n))%nat.
Proof.
  intros Hn.
  assert (0 < 10 ^ Z.of_nat k) by (apply Z.pow_pos_nonneg; lia).
  destruct n as [|p|p]; [lia| |lia].
  change (pretty (Z.pos p)) with (pretty_N_go (N.pos p) "").
  etrans; [|apply (pretty_N_go_length_lower k)]; [simpl; lia|].
  assert (Z.of_N (10 ^ N.of_nat k) ≤ Z.of_N (N.pos p)); [|lia].
  rewrite N2Z.inj_pow, nat_N_Z. simpl. lia.
Qed.

Lemma length_zeros n : String.length (zeros n) = n.
Proof. induction n as [|n IH]; simpl; [done|by rewrite IH]. Qed.

Lemma zeros_digits n : string_forall is_digit (zeros n) = true.
Proof. induction n as [|n IH]; simpl; [done|exact IH]. Qed.

Lemma zeros_app_canonical_inj (a b : nat) (s s' : string) :
  (s = "0" ∨ ∃ c rest, s = String c rest ∧ c ≠ "0"%char) →
  (s' = "0" ∨ ∃ c rest, s' = String c rest ∧ c ≠ "0"%char) →
  zeros a +:+ s = zeros b +:+ s' → s = s'.
Proof.
  revert b. induction a as [|a IH]; intros [|b] Hs Hs' Heq.
  - exact Heq.
  - cbn [zeros] in Heq. rewrite append_nil_l, append_cons in Heq.
    destruct Hs as [->|(c & rest & -> & Hc)].
    + injection Heq as Heq. destruct b; cbn [zeros] in Heq.
      * rewrite append_nil_l in Heq. subst s'.
        destruct Hs' as [?|(? & ? & ? & _)]; discriminate.
      * rewrite append_cons in Heq. discriminate.
    + injection Heq as -> _. by destruct Hc.
  - cbn [zeros] in Heq. rewrite append_nil_l, append_cons in Heq.
    destruct Hs' as [->|(c & rest & -> & Hc)].
    + injection Heq as Heq. destruct a; cbn [zeros] in Heq.
      * rewrite append_nil_l in Heq. subst s.
        destruct Hs as [?|(? & ? & ? & _)]; discriminate.
      * rewrite append_cons in Heq. discriminate.
    + injection Heq as <- _. by destruct Hc.
  - cbn [zeros] in Heq. rewrite !append_cons in Heq. injection Heq as Heq.
    by apply (IH b).
Qed.

Lemma zero_pad_head_digit w (n : Z) :
  0 ≤ n → ∃ c rest, zero_pad w (pretty n) = String c rest ∧ is_digit c = true.
Proof.
  intros Hn. unfold zero_pad.
  destruct (pretty_Z_digits n Hn) as [Hd Hne].
  destruct (w - String.length (pretty n))%nat as [|k].
  - rewrite append_nil_l. destruct (pretty n) as [|c rest]; [done|].
    exists c, rest. split; [done|]. simpl in Hd. by apply andb_true_iff in Hd as [-> _].
  - cbn [zeros]. rewrite append_cons. by eexists _, _.
Qed.

(** [f"{n:05d}"] never prints two integers alike. *)
Lemma fmt_05d_inj (i j : Z) : fmt_05d i = fmt_05d j → i = j.
Proof.
  unfold fmt_05d. intros Heq.
  destruct (Z.ltb_spec i 0) as [Hi|Hi], (Z.ltb_spec j 0) as [Hj|Hj].
  - change ("-" +:+ ?s) with (String "-" s) in Heq. injection Heq as Heq.
    unfold zero_pad in Heq.
    apply zeros_app_canonical_inj in Heq;
      [|apply pretty_Z_canonical; lia|apply pretty_Z_canonical; lia].
    apply (inj pretty) in Heq. lia.
  - change ("-" +:+ ?s) with (String "-" s) in Heq.
    destruct (zero_pad_head_digit 5 j Hj) as (c & rest & Hpad & Hc).
    rewrite Hpad in Heq. injection Heq as <- _. discriminate.
  - change ("-" +:+ ?s) with (String "-" s) in Heq.
    destruct (zero_pad_head_digit 5 i Hi) as (c & rest & Hpad & Hc).
    rewrite Hpad in Heq. injection Heq as -> _. discriminate.
  - unfold zero_pad in Heq.
    apply zeros_app_canonical_inj in Heq;
      [|apply pretty_Z_canonical; lia|apply pretty_Z_canonical; lia].
    by apply (inj pretty) in Heq.
Qed.

Lemma append_inj_r (s s' t : string) : s +:+ t = s' +:+ t → s = s'.
Proof.
  revert s'. induction s as [|c s IH]; intros [|c' s'] Heq.
  - done.
  - apply (f_equal String.length) in Heq.
    rewrite append_nil_l, append_cons in Heq. simpl in Heq.
    rewrite length_app_string in Heq. lia.
  - apply (f_equal String.length) in Heq.
    rewrite append_nil_l, append_cons in Heq. simpl in Heq.
    rewrite length_app_string in Heq. lia.
  - rewrite !append_cons in Heq. injection Heq as -> Heq. f_equal. by apply IH.
Qed.

Lemma os_path_join_relative (d : string) :
  ∃ p : string, ∀ b, String.prefix "/" b = false → os_path_join d b = p +:+ b.
Proof.
  unfold os_path_join. destruct (decide (d = "")) as [->|Hd].
  - exists "". intros b ->. reflexivity.
  - destruct (String.eqb (String.substring (String.length d - 1) 1 d) "/").
    + exists d. intros b ->. reflexivity.
    + exists (d +:+ "/"). intros b ->. by rewrite append_assoc.
Qed.

(** X1. In one directory distinct sample indices get distinct image
    paths and distinct label paths, and an image path is never a label
    path: the files of two samples never collide. *)
Theorem sample_paths_distinct idir ldir (i j : Z) :
  (img_filepath idir i = img_filepath idir j → i = j)
  ∧ (label_filepath ldir i = label_filepath ldir j → i = j)
  ∧ img_filepath idir i ≠ label_filepath ldir j.
Proof.
  split; [|split; [|apply img_label_path_ne]].
  - unfold img_filepath. destruct (os_path_join_relative idir) as (p & Hp).
    rewrite !Hp by reflexivity. intros Heq.
    apply (inj (String.append p)), (inj (String.append "image_")) in Heq.
    by apply append_inj_r, fmt_05d_inj in Heq.
  - unfold label_filepath. destruct (os_path_join_relative ldir) as (p & Hp).
    rewrite !Hp by reflexivity. intros Heq.
    apply (inj (String.append p)), (inj (String.append "image_")) in Heq.
    by apply append_inj_r, fmt_05d_inj in Heq.
Qed.

(** X2. The index field of a file name has exactly five digits up to
    index 99999 and is the plain, longer numeral from 100000 on: the
    field widens, nothing is cut. *)
Theorem fmt_05d_width (i : Z) :
  (0 ≤ i ≤ 99999 →
   String.length (fmt_05d i) = 5%nat ∧ string_forall is_digit (fmt_05d i) = true)
  ∧ (100000 ≤ i → fmt_05d i = pretty i ∧ (5 < String.length (fmt_05d i))%nat).
Proof.
  unfold fmt_05d. split.
  - intros Hi. destruct (Z.ltb_spec i 0); [lia|]. unfold zero_pad.
    pose proof (pretty_Z_length_upper i 5 ltac:(simpl; lia) ltac:(lia)) as Hlen.
    split.
    + rewrite length_app_string, length_zeros. lia.
    + rewrite string_forall_app, zeros_digits. by apply pretty_Z_digits.
  - intros Hi. destruct (Z.ltb_spec i 0); [lia|]. unfold zero_pad.
    pose proof (pretty_Z_length_lower i 5 ltac:(simpl; lia)) as Hlen.
    replace (5 - String.length (pretty i))%nat with 0%nat by lia.
    rewrite append_nil_l. split; [done|lia].
Qed.

Lemma fmt_05d_width_witness :
  0 ≤ 42 ≤ 99999 ∧ fmt_05d 42 = "00042" ∧ String.length (fmt_05d 42) = 5%nat
  ∧ 100000 ≤ 123456 ∧ fmt_05d 123456 = "123456".
Proof.
  split; [lia|]. split; [reflexivity|].
  split; [exact (proj1 (proj1 (fmt_05d_width 42) ltac:(lia)))|].
  split; [lia|].
  rewrite (proj1 (proj2 (fmt_05d_width 123456) ltac:(lia))). reflexivity.
Defined.
(** ** The effects of one sample, whatever its outcome *)

Lemma touches_only_refl paths fs : touches_only paths fs fs.
Proof. split; [apply fs_extends_refl|done]. Qed.

Lemma touches_only_trans paths fs1 fs2 fs3 :
  touches_only paths fs1 fs2 → touches_only paths fs2 fs3 → touches_only paths fs1 fs3.
Proof.
  intros (He1 & Hd1 & Hp1) (He2 & Hd2 & Hp2).
  split; [by eapply fs_extends_trans|]. split; [congruence|].
  intros p Hp. by rewrite Hp2, Hp1.
Qed.

Lemma touches_only_write paths path content st :
  path ∈ paths → touches_only paths (w_fs st) (w_fs (world_write path content st)).
Proof.
  intros Hin. split; [apply fs_extends_write|]. split; [done|].
  intros p Hp. unfold world_write. cbn [w_fs fs_files].
  apply lookup_insert_ne. by intros ->.
Qed.

Lemma touches_only_leave paths path remains st :
  path ∈ paths → touches_only paths (w_fs st) (w_fs (world_leave path remains st)).
Proof.
  intros Hin. unfold world_leave.
  case_bool_decide; [by apply touches_only_write|apply touches_only_refl].
Qed.

Lemma generate_single_sample_touches i w h r idir ldir st :
  touches_only [img_filepath idir i; label_filepath ldir i] (w_fs st)
    (w_fs (generate_single_sample i w h r idir ldir st).2).
Proof.
  set (paths := [img_filepath idir i; label_filepath ldir i]).
  assert (img_filepath idir i ∈ paths) as Hin1 by (apply elem_of_cons; by left).
  assert (label_filepath ldir i ∈ paths) as Hin2
    by (apply elem_of_cons; right; apply elem_of_cons; by left).
  destruct (Z.lt_ge_cases (w - r) r) as [Hr|Hr].
  { rewrite generate_single_sample_empty_range by done. apply touches_only_refl. }
  destruct (Z.lt_ge_cases w 0) as [Hw|Hw].
  { rewrite generate_single_sample_negative by (done || by left). apply touches_only_refl. }
  destruct (Z.lt_ge_cases h 0) as [Hh|Hh].
  { rewrite generate_single_sample_negative by (done || by right).
    apply touches_only_refl. }
  destruct (generate_single_sample_run i w h r idir ldir st Hr Hw Hh)
    as (img & _ & Hrun).
  rewrite Hrun. clear Hrun.
  set (st2 := world_skip (2 + Z.to_nat (w * h)) st).
  change (w_fs st) with (w_fs st2).
  pose proof (touches_only_write paths (img_filepath idir i) (PngFile img) st2 Hin1)
    as Himg.
  destruct (fs_fault (w_fs st2) (img_filepath idir i) (PngFile img))
    as [[msg|msg remains]|]; cbn [snd].
  - apply touches_only_refl.
  - destruct ((w =? 0) || (h =? 0)); cbn [snd]; by apply touches_only_leave.
  - destruct ((w =? 0) || (h =? 0)); cbn [snd]; [by apply touches_only_leave|].
    destruct (fs_fault (w_fs st2) (label_filepath ldir i) _)
      as [[msg|msg remains]|]; cbn [snd]; [exact Himg|..];
      (eapply touches_only_trans; [exact Himg|by apply touches_only_write]).
Qed.

(** X3. Whatever its outcome, a sample touches no path but its own
    image and label paths, creates no directory, and changes nothing in
    what the file system refuses. *)
Theorem generate_single_sample_frame i w h r idir ldir st :
  let st' := (generate_single_sample i w h r idir ldir st).2 in
  fs_fault (w_fs st') = fs_fault (w_fs st)
  ∧ fs_dirs (w_fs st') = fs_dirs (w_fs st)
  ∧ ∀ p, p ≠ img_filepath idir i → p ≠ label_filepath ldir i →
      fs_files (w_fs st') !! p = fs_files (w_fs st) !! p.
Proof.
  intros st'. unfold st'.
  destruct (generate_single_sample_touches i w h r idir ldir st)
    as ((Hfault & _) & Hdirs & Hpaths).
  split; [exact Hfault|]. split; [exact Hdirs|].
  intros p Hp1 Hp2. apply Hpaths. intros Hin.
  apply elem_of_cons in Hin as [->|Hin]; [done|].
  apply elem_of_cons in Hin as [->|Hin]; [done|]. by apply elem_of_nil in Hin.
Qed.

(** X4. Generating or regenerating index [i] leaves the image and the
    label of every other index of the same directories as they were. *)
Theorem regeneration_spares_other_indices i j w h r idir ldir st :
  i ≠ j →
  let st' := (generate_single_sample i w h r idir ldir st).2 in
  fs_files (w_fs st') !! img_filepath idir j = fs_files (w_fs st) !! img_filepath idir j
  ∧ fs_files (w_fs st') !! label_filepath ldir j
    = fs_files (w_fs st) !! label_filepath ldir j.
Proof.
  intros Hij st'.
  destruct (generate_single_sample_frame i w h r idir ldir st) as (_ & _ & Hframe).
  fold st' in Hframe. split; apply Hframe.
  - intros Heq. by apply (sample_paths_distinct idir ldir j i) in Heq.
  - apply img_label_path_ne.
  - intros Heq. symmetry in Heq. by apply img_label_path_ne in Heq.
  - intros Heq. by apply (sample_paths_distinct idir ldir j i) in Heq.
Qed.

Lemma regeneration_spares_other_indices_witness :
  let st1 := (generate_single_sample 1 4 2 1 "images" "labels" demo_world).2 in
  let st2 := (generate_single_sample 0 4 2 1 "images" "labels" st1).2 in
  0 ≠ 1
  ∧ is_Some (fs_files (w_fs st1) !! img_filepath "images" 1)
  ∧ fs_files (w_fs st2) !! img_filepath "images" 1
    = fs_files (w_fs st1) !! img_filepath "images" 1
  ∧ fs_files (w_fs st2) !! label_filepath "labels" 1
    = fs_files (w_fs st1) !! label_filepath "labels" 1.
Proof.
  intros st1 st2. split; [lia|]. split; [vm_compute; eexists; reflexivity|].
  apply (regeneration_spares_other_indices 0 1 4 2 1 "images" "labels" st1). lia.
Defined.

(** X5. A geometry that cannot be drawn fails before any file is
    opened: when [width - radius < radius] the draw of the centre raises
    ValueError at once and the state is untouched; when a size is
    negative the centre and the shift are drawn, [Image.new] raises
    ValueError and only the generator has moved, by two words.  Either
    way the file system is exactly as it was: no image, no label. *)
Theorem failed_sample_effects i w h r idir ldir st :
  w - r < r ∨ w < 0 ∨ h < 0 →
  ∃ msg st',
    generate_single_sample i w h r idir ldir st = (Raise (ValueError msg), st')
    ∧ w_fs st' = w_fs st
    ∧ (w - r < r → msg = "empty range for randrange()" ∧ st' = st)
    ∧ (r ≤ w - r →
       msg = "Width and height must be >= 0"
       ∧ rng_words (w_rng st') = rng_words (w_rng st)
       ∧ rng_pos (w_rng st') = (rng_pos (w_rng st) + 2)%nat).
Proof.
  intros Hbad.
  destruct (Z.lt_ge_cases (w - r) r) as [Hr|Hr].
  - exists "empty range for randrange()", st.
    split; [by apply generate_single_sample_empty_range|].
    split; [done|]. split; [done|]. lia.
  - exists "Width and height must be >= 0", (world_skip 2 st).
    split; [apply generate_single_sample_negative; [done|lia]|].
    split; [done|]. split; [lia|]. done.
Qed.

Lemma failed_sample_effects_witness :
  (10 - 6 < 6 ∨ 10 < 0 ∨ 2 < 0)
  ∧ ∃ st',
      generate_single_sample 0 10 2 6 "images" "labels" demo_world
      = (Raise (ValueError "empty range for randrange()"), st')
      ∧ w_fs st' = w_fs demo_world.
Proof.
  split; [left; lia|].
  destruct (failed_sample_effects 0 10 2 6 "images" "labels" demo_world)
    as (msg & st' & Hrun & Hfs & Hempty & _); [left; lia|].
  destruct (Hempty ltac:(lia)) as [-> _].
  exists st'. split; [exact Hrun|exact Hfs].
Defined.

(** X6. A successful sample reads exactly [2 + width * height] words of
    the generator (the centre, the shift, then one per pixel) and reads
    them in order: the generator is left that many words further. *)
Theorem successful_sample_draws i w h r idir ldir st b st' :
  generate_single_sample i w h r idir ldir st = (Ok b, st') →
  w_rng st' = rng_skip (2 + Z.to_nat (w * h)) (w_rng st)
  ∧ rng_pos (w_rng st') = (rng_pos (w_rng st) + 2 + Z.to_nat (w * h))%nat
  ∧ rng_words (w_rng st') = rng_words (w_rng st).
Proof.
  intros Hrun.
  destruct (generate_single_sample_ok_inv _ _ _ _ _ _ _ _ _ Hrun)
    as (_ & _ & _ & _ & img & _ & _ & _ & ->).
  cbn [world_write world_skip w_rng rng_skip rng_pos rng_words].
  split; [done|]. split; [lia|done].
Qed.

Lemma successful_sample_draws_witness :
  ∃ st',
    generate_single_sample 0 4 2 1 "images" "labels" demo_world = (Ok true, st')
    ∧ rng_pos (w_rng st') = 10%nat.
Proof.
  destruct (generate_single_sample 0 4 2 1 "images" "labels" demo_world)
    as [[b|e] st'] eqn:Hrun; [|vm_compute in Hrun; discriminate].
  assert (b = true) as -> by (vm_compute in Hrun; congruence).
  exists st'. split; [reflexivity|].
  exact (proj1 (proj2 (successful_sample_draws 0 4 2 1 "images" "labels"
                         demo_world true st' Hrun))).
Defined.
(** ** Splits *)

Lemma generate_split_unfold job_rng base name w h r N completion fs :
  let idir := split_images_dir base name in
  let ldir := split_labels_dir base name in
  let pool := run_pool job_rng (MkJobArgs w h r idir ldir) completion
                (makedirs ldir (makedirs idir fs)) in
  generate_split job_rng base name w h r N completion fs
  = MkSplitRun pool.1 (split_header name idir ldir N ++ collect N name 0 pool.1) pool.2.
Proof.
  intros idir ldir pool. unfold generate_split.
  fold (split_images_dir base name) (split_labels_dir base name). fold idir ldir.
  fold pool. by destruct pool.
Qed.


(** ** Splits where every job succeeds, and where none does *)

Lemma run_pool_unhindered job_rng a (order : list Z) :
  ja_radius a ≤ ja_width a - ja_radius a → 0 < ja_width a → 0 < ja_height a →
  ∀ fs,
    (∀ i, i ∈ order → job_unhindered fs (ja_images_dir a) (ja_labels_dir a) i) →
    ∃ fs',
      run_pool job_rng a order fs = (success_outcome <$> order, fs')
      ∧ fs_extends fs fs'
      ∧ ∀ i, i ∈ order →
          is_Some (fs_files fs' !! img_filepath (ja_images_dir a) i)
          ∧ is_Some (fs_files fs' !! label_filepath (ja_labels_dir a) i).
Proof.
  intros Hr Hw Hh. induction order as [|j order IH]; intros fs Hall.
  - exists fs. split; [done|]. split; [apply fs_extends_refl|].
    intros i Hi. by apply elem_of_nil in Hi.
  - destruct (run_job_unhindered job_rng a j fs Hr Hw Hh) as (fs1 & Hj & He & H1 & H2).
    { apply Hall. left. }
    destruct (IH fs1) as (fs' & Hpool & Hext & Hfiles).
    { intros i Hi. eapply job_unhindered_extends; [done|]. apply Hall. by right. }
    exists fs'. split; [|split].
    + cbn [run_pool]. rewrite Hj, Hpool. reflexivity.
    + by eapply fs_extends_trans.
    + intros i Hi. apply elem_of_cons in Hi as [->|Hi]; [|by apply Hfiles].
      destruct Hext as [_ Hkeep]. split; by apply Hkeep.
Qed.

Lemma collect_success_no_exception N name e (order : list Z) : ∀ i,
  exception_line e ∉ collect N name i (success_outcome <$> order).
Proof.
  induction order as [|j order IH]; intros i; [apply not_elem_of_nil|].
  rewrite fmap_cons. cbn [collect]. rewrite elem_of_app. intros [Hin|Hin].
  - unfold collect_one, success_outcome in Hin. cbn [fut_result] in Hin.
    destruct ((i + 1) `mod` progress_step N =? 0); [|by apply elem_of_nil in Hin].
    apply list_elem_of_singleton in Hin. symmetry in Hin.
    by apply progress_line_ne_exception in Hin.
  - by apply (IH (i + 1)).
Qed.

Lemma div_step (i s : Z) :
  0 < s →
  (i + 1) `div` s - i `div` s = if (i + 1) `mod` s =? 0 then 1 else 0.
Proof.
  intros Hs.
  pose proof (Z.div_mod i s ltac:(lia)) as Hi.
  pose proof (Z.mod_pos_bound i s Hs) as Hri.
  pose proof (Z.div_mod (i + 1) s ltac:(lia)) as Hi1.
  pose proof (Z.mod_pos_bound (i + 1) s Hs) as Hri1.
  destruct (Z.eqb_spec ((i + 1) `mod` s) 0) as [H0|H0]; nia.
Qed.

Lemma collect_success_length N name (order : list Z) : ∀ i,
  0 < progress_step N →
  Z.of_nat (length (collect N name i (success_outcome <$> order)))
  = (i + Z.of_nat (length order)) `div` progress_step N - i `div` progress_step N.
Proof.
  induction order as [|j order IH]; intros i Hs.
  - simpl. rewrite Z.add_0_r. lia.
  - rewrite fmap_cons. cbn [collect]. rewrite length_app, Nat2Z.inj_add, (IH (i + 1) Hs).
    pose proof (div_step i (progress_step N) Hs) as Hstep.
    unfold collect_one, success_outcome. cbn [fut_result length].
    replace (i + 1 + Z.of_nat (length order)) with (i + Z.of_nat (S (length order)))
      by lia.
    destruct ((i + 1) `mod` progress_step N =? 0); simpl length; lia.
Qed.

(** X8. When the geometry is valid and no write of the split is refused,
    every job of the split returns True, the image and the label of
    every index [0 .. N-1] exist afterwards, no exception line is
    printed, and the number of progress lines is
    [N // (N // 10 or 1)]: ten when [N] is a positive multiple of ten,
    [N] when [N < 10], and more than ten otherwise (twelve for 25). *)
Theorem all_success_split job_rng base name w h r N completion fs :
  0 < w → 0 < h → r ≤ w - r → 0 ≤ N →
  valid_completion N completion →
  let idir := split_images_dir base name in
  let ldir := split_labels_dir base name in
  (∀ i, 0 ≤ i < N → job_unhindered fs idir ldir i) →
  let run := generate_split job_rng base name w h r N completion fs in
  sr_futures run = success_outcome <$> completion
  ∧ count_futures is_failure (sr_futures run) = 0%nat
  ∧ (∀ i, 0 ≤ i < N →
       is_Some (fs_files (sr_fs run) !! img_filepath idir i)
       ∧ is_Some (fs_files (sr_fs run) !! label_filepath ldir i))
  ∧ (∀ e, exception_line e ∉ sr_stdout run)
  ∧ sr_stdout run
    = (split_header name idir ldir N ++ collect N name 0 (sr_futures run))%list
  ∧ Z.of_nat (length (collect N name 0 (sr_futures run))) = N `div` progress_step N
  ∧ (0 < N → N `mod` 10 = 0 → N `div` progress_step N = 10)
  ∧ (N < 10 → N `div` progress_step N = N).
Proof.
  intros Hw Hh Hr HN Hperm idir ldir Hall run.
  unfold run. rewrite generate_split_unfold. fold idir ldir.
  set (a := MkJobArgs w h r idir ldir).
  set (fs0 := makedirs ldir (makedirs idir fs)).
  destruct (run_pool_unhindered job_rng a completion Hr Hw Hh fs0)
    as (fs' & Hpool & Hext & Hfiles).
  { intros i Hi. apply Hall. by apply (valid_completion_elem N completion). }
  rewrite Hpool. cbn [fst snd sr_futures sr_fs sr_stdout].
  assert (0 < progress_step N) as Hstep.
  { rewrite progress_step_nonneg by done. lia. }
  split; [done|]. split.
  { clear. induction completion as [|i l IH]; [done|]. rewrite fmap_cons. exact IH. }
  split.
  { intros i Hi. apply Hfiles. by apply (valid_completion_elem N completion). }
  split.
  { intros e [Hin|Hin]%elem_of_app.
    - unfold split_header in Hin.
      apply elem_of_cons in Hin as [Hin|Hin]; [discriminate Hin|].
      apply list_elem_of_singleton in Hin. discriminate Hin.
    - by apply collect_success_no_exception in Hin. }
  split; [done|]. split.
  { rewrite collect_success_length by done.
    rewrite (valid_completion_length N completion Hperm).
    rewrite Z2Nat.id by done. rewrite Z.add_0_l, Z.div_0_l by lia. lia. }
  split.
  - intros Hpos Hmod. rewrite progress_step_nonneg by done.
    pose proof (Z.div_mod N 10 ltac:(lia)) as Hdm. rewrite Hmod in Hdm.
    assert (1 ≤ N `div` 10) by lia.
    rewrite Z.max_r by lia.
    rewrite Hdm at 1. rewrite Z.add_0_r. apply Z.div_mul. lia.
  - intros Hlt. unfold progress_step. rewrite (Z.div_small N 10) by lia.
    simpl. apply Z.div_1_r.
Qed.

Lemma all_success_split_witness :
  let run := generate_split (λ _, demo_rng) "data" "test" 4 2 1 3 [1; 2; 0] demo_fs in
  0 < 4 ∧ 0 < 2 ∧ 1 ≤ 4 - 1 ∧ 0 ≤ 3 ∧ valid_completion 3 [1; 2; 0]
  ∧ count_futures is_failure (sr_futures run) = 0%nat
  ∧ is_Some (fs_files (sr_fs run) !! img_filepath (split_images_dir "data" "test") 2)
  ∧ Z.of_nat (length (collect 3 "test" 0 (sr_futures run))) = 3 `div` progress_step 3.
Proof.
  intros run. repeat (split; [lia|]).
  assert (valid_completion 3 [1; 2; 0]) as Hperm.
  { unfold valid_completion. change (range 3) with [0; 1; 2].
    etrans; [apply perm_skip, perm_swap|]. apply perm_swap. }
  split; [exact Hperm|].
  destruct (all_success_split (λ _, demo_rng) "data" "test" 4 2 1 3 [1; 2; 0] demo_fs)
    as (_ & Hfail & Hfiles & _ & _ & Hcount & _);
    [lia | lia | lia | lia | exact Hperm | |].
  - intros i _. split; intros c; reflexivity.
  - split; [exact Hfail|]. split; [exact (proj1 (Hfiles 2 ltac:(lia)))|exact Hcount].
Defined.

(** The count is not always ten: a split of 25 samples has step 2 and
    prints twelve progress lines. *)
Example progress_lines_of_25 : 25 `div` progress_step 25 = 12.
Proof. reflexivity. Qed.

Lemma run_pool_empty_range job_rng a (order : list Z) :
  ja_width a - ja_radius a < ja_radius a →
  ∀ fs, run_pool job_rng a order fs = (empty_range_outcome <$> order, fs).
Proof.
  intros Hr. induction order as [|i order IH]; intros fs; [done|].
  cbn [run_pool]. unfold run_job at 1.
  rewrite generate_single_sample_empty_range by done. cbn [w_fs].
  by rewrite IH.
Qed.

Lemma collect_empty_range N name (order : list Z) : ∀ i,
  collect N name i (empty_range_outcome <$> order)
  = replicate (length order)
      (exception_line (ValueError "empty range for randrange()")).
Proof.
  induction order as [|j order IH]; intros i; [done|].
  rewrite fmap_cons. cbn [collect length replicate]. by rewrite IH.
Qed.

(** X9. A geometry whose centre cannot be drawn
    ([width - radius < radius]) is not detected before dispatch and does
    not stop the run: every job of the split is still run and fails with
    the same ValueError, the collector prints one exception line per job
    and no progress line, and no sample file is written. *)
Theorem invalid_geometry_split job_rng base name w h r N completion fs :
  w - r < r → valid_completion N completion →
  let run := generate_split job_rng base name w h r N completion fs in
  sr_futures run = empty_range_outcome <$> completion
  ∧ count_futures is_success (sr_futures run) = 0%nat
  ∧ sr_stdout run
    = (split_header name (split_images_dir base name) (split_labels_dir base name) N
       ++ replicate (Z.to_nat N)
            (exception_line (ValueError "empty range for randrange()")))%list
  ∧ fs_files (sr_fs run) = fs_files fs.
Proof.
  intros Hr Hperm run. unfold run. rewrite generate_split_unfold.
  rewrite run_pool_empty_range by done. cbn [fst snd sr_futures sr_stdout sr_fs].
  split; [done|]. split.
  { clear. induction completion as [|i l IH]; [done|]. rewrite fmap_cons. exact IH. }
  split; [|done].
  by rewrite collect_empty_range, (valid_completion_length N completion Hperm).
Qed.

Lemma invalid_geometry_split_witness :
  let run := generate_split (λ _, demo_rng) "data" "train" 10 2 6 2 [1; 0] demo_fs in
  10 - 6 < 6 ∧ valid_completion 2 [1; 0]
  ∧ sr_stdout run
    = ["Created directories for 'train': data/train/images and data/train/labels";
       "Generating 2 samples for 'train' split...";
       "Generated sample threw an exception: empty range for randrange()";
       "Generated sample threw an exception: empty range for randrange()"]
  ∧ fs_files (sr_fs run) = ∅.
Proof.
  intros run. split; [lia|].
  assert (valid_completion 2 [1; 0]) as Hperm.
  { unfold valid_completion. change (range 2) with [0; 1]. apply perm_swap. }
  split; [exact Hperm|].
  destruct (invalid_geometry_split (λ _, demo_rng) "data" "train" 10 2 6 2 [1; 0]
              demo_fs ltac:(lia) Hperm) as (_ & _ & Hout & Hfiles).
  split; [exact Hout|exact Hfiles].
Defined.


(** ** Degenerate radii *)

(** X11. A negative radius paints no circle: every pixel of the sample
    is its base value.  A radius of zero shifts the centre pixel alone
    (when the centre lies in the image). *)
Theorem degenerate_radius w h r cx cy path shift st img st' :
  generate_static_image w h r cx cy path shift st = (Ok img, st') →
  ∀ x y, 0 ≤ x < w → 0 ≤ y < h →
    let base := draw 0 max_background_grey (w_rng st) (Z.to_nat (y * w + x)) in
    (r < 0 → getpixel img x y = base)
    ∧ (r = 0 → (x, y) ≠ (cx, cy) → getpixel img x y = base)
    ∧ (r = 0 → (x, y) = (cx, cy) → getpixel img x y = clamp_byte (base + shift)).
Proof.
  intros Hrun x y Hx Hy base.
  destruct (generate_static_image_ok_inv _ _ _ _ _ _ _ _ _ _ Hrun)
    as (_ & _ & Hspec & _ & _).
  rewrite (static_spec_getpixel _ _ _ _ _ _ _ _ _ _ Hspec Hx Hy). fold base.
  unfold pixel_value, inside_circle, dist_sq. rewrite !Z.pow_2_r.
  pose proof (Z.square_nonneg (x - cx)) as Hsx.
  pose proof (Z.square_nonneg (y - cy)) as Hsy.
  split; [|split].
  - intros Hr. destruct (Z.leb_spec 0 r); [lia|done].
  - intros -> Hne.
    destruct (Z.leb_spec ((x - cx) * (x - cx) + (y - cy) * (y - cy)) (0 * 0));
      [|done].
    exfalso. apply Hne. f_equal; nia.
  - intros -> [= -> ->]. rewrite !Z.sub_diag. reflexivity.
Qed.

Lemma degenerate_radius_witness :
  ∃ img st',
    generate_static_image 4 2 (-1) 3 1 "preview.png" 18 demo_world = (Ok img, st')
    ∧ getpixel img 3 1 = draw 0 max_background_grey demo_rng (Z.to_nat (1 * 4 + 3)).
Proof.
  destruct (generate_static_image 4 2 (-1) 3 1 "preview.png" 18 demo_world)
    as [[img|e] st'] eqn:Hrun; [|vm_compute in Hrun; discriminate].
  exists img, st'. split; [reflexivity|].
  destruct (degenerate_radius 4 2 (-1) 3 1 "preview.png" 18 demo_world img st' Hrun 3 1)
    as (Hneg & _); [lia|lia|].
  apply Hneg. lia.
Defined.

(** ** The label is printed from the doubles *)

(** X12. The fields of a label are printed from the doubles that the
    divisions give, not from the exact quotients.  In an image of width
    640 a centre drawn at 63 has the quotient 0.0984375, half way
    between two numerals of six decimals; the double nearest to the
    quotient lies below it and the field reads [0.098437], where the
    exact quotient rounded half to even would read [0.098438].  In the
    same way a centre at 1 reads [0.001563], not [0.001562]. *)
Theorem label_prints_the_double i h r idir ldir st b st' :
  generate_single_sample i 640 h r idir ldir st = (Ok b, st') →
  let center_x := drawn_center_x 640 r (w_rng st) in
  ∃ rest,
    fs_files (w_fs st') !! label_filepath ldir i
    = Some (TextFile ("0 " +:+ fmt_6f (binary64 (center_x # 640)) +:+ " " +:+ rest))
    ∧ (center_x = 63 →
       fmt_6f (binary64 (center_x # 640)) = "0.098437"
       ∧ fmt_6f (center_x # 640) = "0.098438"
       ∧ (binary64 (center_x # 640) < center_x # 640)%Q)
    ∧ (center_x = 1 →
       fmt_6f (binary64 (center_x # 640)) = "0.001563"
       ∧ fmt_6f (center_x # 640) = "0.001562"
       ∧ (center_x # 640 < binary64 (center_x # 640))%Q).
Proof.
  intros Hrun center_x.
  destruct (generate_single_sample_ok_files _ _ _ _ _ _ _ _ _ Hrun)
    as (_ & _ & _ & img & _ & _ & Hlbl).
  fold center_x in Hlbl. unfold sample_label, label_line in Hlbl.
  change (Z.to_pos 640) with 640%positive in Hlbl. change (fmt_d 0) with "0" in Hlbl.
  eexists. split; [exact Hlbl|].
  split; intros ->; vm_compute; done.
Qed.

Lemma label_prints_the_double_witness :
  let st := MkWorld (MkRng (λ n, Z.of_nat n * 37 + 3) 0) demo_fs in
  ∃ st',
    generate_single_sample 0 640 480 60 "images" "labels" st = (Ok true, st')
    ∧ drawn_center_x 640 60 (w_rng st) = 63
    ∧ ∃ rest,
        fs_files (w_fs st') !! label_filepath "labels" 0
        = Some (TextFile ("0 " +:+ "0.098437" +:+ " " +:+ rest)).
Proof.
  intros st.
  destruct (generate_single_sample_unhindered 0 640 480 60 "images" "labels" st)
    as (img & _ & Hrun); [lia | lia | lia | reflexivity | reflexivity |].
  eexists. split; [exact Hrun|]. split; [reflexivity|].
  destruct (label_prints_the_double 0 480 60 "images" "labels" st true _ Hrun)
    as (rest & Hlbl & H63 & _).
  destruct (H63 eq_refl) as (Hfmt & _).
  exists rest. rewrite <- Hfmt. exact Hlbl.
Defined.
